(** * FalconDefender: detection-and-containment engine

    A shallow embedding of the scanner ([falcon/scanner.py]), the rule
    store ([falcon/yara_manager.py]), the quarantine store
    ([falcon/quarantine.py]) and the scan state machine of the TUI adapter
    ([falcon/tui_integration.py]), together with the properties that the
    specification states about them. *)

From Stdlib Require Import ZArith QArith String Ascii List Lia DecimalString.
From stdpp Require Import base option list gmap strings fin_maps.

Local Close Scope Q_scope.
Local Open Scope string_scope.
Local Open Scope list_scope.

(** ** Python values and library functions used by the sources *)

Module Py.

(** Exceptions that can travel through the modelled code. *)
Inductive exn : Type :=
| YaraError            (* yara.Error: syntax error, unreadable file ... *)
| YaraTimeoutError     (* yara.TimeoutError, a subclass of yara.Error *)
| ShutilError          (* shutil.Error, a subclass of OSError *)
| SqliteIntegrityError (* sqlite3.IntegrityError, a subclass of sqlite3.Error *)
| SqliteBindingError   (* sqlite3.ProgrammingError (InterfaceError before
                          Python 3.11): a parameter of a type that cannot be
                          bound; a subclass of sqlite3.Error *)
| OverflowError        (* an int that does not fit an SQLite INTEGER *)
| FileNotFoundError    (* a subclass of OSError *)
| FileExistsError      (* a subclass of OSError *)
| NotADirectoryError   (* a subclass of OSError *)
| PermissionError      (* a subclass of OSError *)
| AttributeError.

(** The exception classes named in the [except] clauses of the sources. *)
Definition Exception (e : exn) : bool := true.

Definition yara_Error (e : exn) : bool :=
  match e with YaraError | YaraTimeoutError => true | _ => false end.

Definition shutil_Error (e : exn) : bool :=
  match e with ShutilError => true | _ => false end.

Definition sqlite3_Error (e : exn) : bool :=
  match e with SqliteIntegrityError | SqliteBindingError => true | _ => false end.

Definition OSError (e : exn) : bool :=
  match e with
  | ShutilError | FileNotFoundError | FileExistsError | NotADirectoryError
  | PermissionError => true
  | _ => false
  end.

(** [str(e)], as it appears in formatted messages. *)
Definition exn_str (e : exn) : string :=
  match e with
  | YaraError => "yara error"
  | YaraTimeoutError => "internal error: 30"
  | ShutilError => "Destination path already exists"
  | SqliteIntegrityError => "UNIQUE constraint failed: quarantine_files.quarantine_path"
  | SqliteBindingError => "Error binding parameter: type is not supported"
  | OverflowError => "Python int too large to convert to SQLite INTEGER"
  | FileNotFoundError => "[Errno 2] No such file or directory"
  | FileExistsError => "[Errno 17] File exists"
  | NotADirectoryError => "[Errno 20] Not a directory"
  | PermissionError => "[Errno 13] Permission denied"
  | AttributeError => "module 'json' has no attribute 'JSONEncodeError'"
  end.

Inductive outcome (A : Type) : Type :=
| Ok (a : A)
| Raise (e : exn).
Arguments Ok {A} a.
Arguments Raise {A} e.

(** [s.rfind(c)], [None] standing for [-1]. *)
Fixpoint rfind (c : ascii) (s : string) : option nat :=
  match s with
  | EmptyString => None
  | String a s' =>
      match rfind c s' with
      | Some i => Some (S i)
      | None => if Ascii.eqb a c then Some 0 else None
      end
  end.

(** [s[i:]] *)
Definition slice_from (i : nat) (s : string) : string :=
  substring i (String.length s - i) s.

(** [PurePath.name] on the text of a normalised POSIX path: what follows
    the last separator. *)
Definition name (p : string) : string :=
  match rfind "/" p with
  | Some i => slice_from (S i) p
  | None => p
  end.

(** [PurePath.parent]: what precedes the last separator. *)
Definition parent (p : string) : string :=
  match rfind "/" p with
  | Some 0 => "/"
  | Some i => substring 0 i p
  | None => "."
  end.

(** [PurePath.suffix]:
    [i = name.rfind('.'); name[i:] if 0 < i < len(name) - 1 else ''] *)
Definition suffix (p : string) : string :=
  let n := name p in
  match rfind "." n with
  | Some i =>
      if (0 <? i)%nat && (i <? String.length n - 1)%nat
      then slice_from i n else ""
  | None => ""
  end.

(** [str.lower] on the ASCII letters; the strings of this development
    are ASCII text. *)
Definition lower_ascii (a : ascii) : ascii :=
  let n := nat_of_ascii a in
  if (65 <=? n)%nat && (n <=? 90)%nat then ascii_of_nat (n + 32) else a.

Fixpoint lower (s : string) : string :=
  match s with
  | EmptyString => EmptyString
  | String a s' => String (lower_ascii a) (lower s')
  end.

(** [s.startswith(p)] *)
Definition startswith (s p : string) : bool := String.prefix p s.

(** [s.endswith(p)] *)
Definition endswith (s p : string) : bool :=
  (String.length p <=? String.length s)%nat
  && String.eqb (slice_from (String.length s - String.length p) s) p.

(** [x in xs] for a list of strings. *)
Definition str_in (x : string) (xs : list string) : bool :=
  existsb (String.eqb x) xs.

(** Truth value of an optional list ([None] and [[]] are falsy). *)
Definition truthy {A} (o : option (list A)) : bool :=
  match o with
  | Some (_ :: _) => true
  | _ => false
  end.

(** [Path(a) / b] *)
Definition joinpath (a b : string) : string :=
  if endswith a "/" then a ++ b else a ++ "/" ++ b.

(** [s.split(sep)] *)
Fixpoint split (sep : ascii) (s : string) : list string :=
  match s with
  | EmptyString => [""]
  | String a s' =>
      if Ascii.eqb a sep then "" :: split sep s'
      else match split sep s' with
           | [] => [String a ""]
           | h :: t => String a h :: t
           end
  end.

(** Order of [PurePath] values: their parts, compared as lists of
    strings. *)
Fixpoint parts_leb (a b : list string) : bool :=
  match a, b with
  | [], _ => true
  | _ :: _, [] => false
  | x :: a', y :: b' =>
      match String.compare x y with
      | Lt => true
      | Gt => false
      | Eq => parts_leb a' b'
      end
  end.

Definition path_leb (p q : string) : bool :=
  parts_leb (split "/" p) (split "/" q).

Fixpoint insert_sorted (p : string) (l : list string) : list string :=
  match l with
  | [] => [p]
  | q :: l' => if path_leb q p then q :: insert_sorted p l' else p :: q :: l'
  end.

(** [sorted(paths)] (stable). *)
Definition sorted (l : list string) : list string :=
  fold_left (fun acc p => insert_sorted p acc) l [].

End Py.

Import Py.

(** ** The file system *)

(** A regular file.  [st_mtime] is a float in Python; the sources only
    store it and compare it with [<=], so an integer clock reading stands
    for it. *)
Record file : Type := File {
  f_content : string;
  f_mtime : Z;
  f_readable : bool;
}.

(** The disk maps the text of a path to the regular file stored there.
    Directories are implicit: a path is a directory when some file lies
    below it.  Regular files and directories are all there is on this
    disk: links, devices and the like are not part of it. *)
Module FS.

Definition is_file (fs : gmap string file) (p : string) : bool :=
  bool_decide (is_Some (fs !! p)).

Definition below (dir p : string) : bool :=
  startswith p (joinpath dir "").

(** The order in which a top-down walk ([os.walk], [Path.rglob]) meets
    files, on the parts of their paths: the files of a directory come
    before those of its sub-directories.  Within one directory the order
    is that of the directory listing, which is the file system's; it is
    taken by name here. *)
Fixpoint walk_leb (a b : list string) : bool :=
  match a, b with
  | [], _ => true
  | _ :: _, [] => false
  | x :: a', y :: b' =>
      match a', b' with
      | [], [] => match String.compare x y with Gt => false | _ => true end
      | [], _ :: _ => true
      | _ :: _, [] => false
      | _ :: _, _ :: _ =>
          match String.compare x y with
          | Lt => true
          | Gt => false
          | Eq => walk_leb a' b'
          end
      end
  end.

Fixpoint walk_insert (p : string) (l : list string) : list string :=
  match l with
  | [] => [p]
  | q :: l' =>
      if walk_leb (split "/" q) (split "/" p) then q :: walk_insert p l'
      else p :: q :: l'
  end.

Definition walk_order (l : list string) : list string :=
  foldr walk_insert [] l.

(** Regular files anywhere below [dir], in the order of a top-down
    walk.  The disk holds directories and regular files only. *)
Definition files_below (fs : gmap string file) (dir : string) : list string :=
  walk_order (filter (fun p => below dir p = true) (map_to_list fs).*1).

Definition is_dir (fs : gmap string file) (p : string) : bool :=
  negb (is_file fs p) && bool_decide (files_below fs p ≠ []).

Definition path_exists (fs : gmap string file) (p : string) : bool :=
  is_file fs p || is_dir fs p.

Definition st_size (f : file) : Z := Z.of_nat (String.length (f_content f)).

(** A regular file stands at a place above [p]. *)
Definition under_a_file (fs : gmap string file) (p : string) : bool :=
  existsb (fun a => below a p) (map_to_list fs).*1.

End FS.

(** ** Configuration ([falcon/config.py]) *)

(** The keys of the configuration that the modelled code reads. *)
Module Config.
Record t : Type := {
  max_file_size_mb : Q;
  allowed_extensions : option (list string);   (* [None]: key absent *)
  blocked_extensions : option (list string);
  quarantine_dir : string;
  rules_dir : string;
}.
End Config.

(** [ConfigManager._get_default_config], with the platform directories
    that [falcon/utils.py] computes when [XDG_DATA_HOME] is [/srv]. *)
Definition default_config : Config.t := {|
  Config.max_file_size_mb := inject_Z 100;
  Config.allowed_extensions := Some [];
  Config.blocked_extensions := Some [".tmp"; ".log"; ".bak"];
  Config.quarantine_dir := "/srv/falcondefender/quarantine";
  Config.rules_dir := "/srv/falcondefender/rules";
|}.

(** ** Dictionaries and YARA objects *)

#[local] Unset Elimination Schemes.
Inductive pyval : Type :=
| PNone
| PStr (s : string)
| PInt (z : Z)
| PBool (b : bool)
| PList (l : list pyval)
| PDict (d : list (string * pyval)).
#[local] Set Elimination Schemes.

(** A Python [dict] with string keys, in insertion order. *)
Definition dict : Type := list (string * pyval).

(** [d.get(k)] *)
Fixpoint dict_get {V} (d : list (string * V)) (k : string) : option V :=
  match d with
  | [] => None
  | (k', v) :: d' => if String.eqb k' k then Some v else dict_get d' k
  end.

(** [d[k] = v]: an existing key keeps its position. *)
Fixpoint dict_set {V} (d : list (string * V)) (k : string) (v : V)
    : list (string * V) :=
  match d with
  | [] => [(k, v)]
  | (k', v') :: d' =>
      if String.eqb k' k then (k, v) :: d' else (k', v') :: dict_set d' k v
  end.

(** One [yara.Match]. *)
Record YaraMatch : Type := {
  rule : string;
  namespace : string;
  tags : list string;
  meta : dict;
  strings : list string;        (* [str(s)] of every matched string *)
}.

(** A compiled [yara.Rules] object: the identifiers of its rules and what
    [rules.match(filepath=.., timeout=..)] answers on a file with the given
    content (a list of matches, or an exception such as
    [yara.TimeoutError]). *)
Record Rules : Type := {
  rule_identifiers : list string;
  rules_match : string -> outcome (list YaraMatch);
}.

(** The libraries underneath: [hashlib.md5(..).hexdigest()] of a byte
    string, [yara.compile] on the (namespace, source text) pairs it is
    given, and the serialisation behind [Rules.save] / [yara.load]. *)
Record Runtime : Type := {
  md5_hexdigest : string -> string;
  yara_compile : list (string * string) -> outcome Rules;
  yara_save : Rules -> string;
  yara_load : string -> outcome Rules;
}.

(** A reading of [datetime.now()]: the sources render it with
    [strftime("%Y%m%d%H%M%S%f")] and with [isoformat()]; [epoch] is the
    same instant as a file time stamp. *)
Record datetime : Type := {
  epoch : Z;
  strftime_YmdHMSf : string;
  isoformat : string;
}.

(** ** The quarantine database ([quarantine_files] table) *)

Record Row : Type := {
  id : Z;
  original_path : string;
  quarantine_path : string;
  file_hash : option pyval;
  quarantined_at : string;
  rule_name : pyval;
  match_details : dict;      (* the text [json.dumps(match_info)], kept as the value it encodes *)
  restored_at : option string;
  deleted_at : option string;
}.

(** The table in rowid order and the AUTOINCREMENT counter
    ([sqlite_sequence]): the largest id handed out so far. *)
Record Database : Type := {
  rows : list Row;
  sequence : Z;
}.

(** ** Program objects *)

Module YaraManager.
Record t : Type := {
  rules_dir : string;
  _rules : option Rules;
  _rules_checksum : option string;
}.
Definition compiled_rules_path (self : t) : string :=
  joinpath (rules_dir self) "compiled_rules.yarac".
Definition checksum_path (self : t) : string :=
  joinpath (rules_dir self) "compiled_rules.yarac.checksum".
End YaraManager.

Module Scanner.
(** [self.yara_manager] and [self.quarantine_manager] are references to
    the objects of the [World] below; [rules] is the reference that
    [__init__] copied out of the manager. *)
Record t : Type := {
  rules : option Rules;
  last_scan_times : gmap string Z;
}.
End Scanner.

(** Everything the modelled code can read or change. *)
Record World : Type := {
  disk : gmap string file;
  config : Config.t;
  quarantine_db : Database;
  yara_manager : YaraManager.t;
  scanner : Scanner.t;
  runtime : Runtime;
  clock : nat -> datetime;     (* the successive readings of the system clock *)
  ticks : nat;                 (* how many readings were taken *)
}.

Definition set_disk (d : gmap string file) (w : World) : World :=
  {| disk := d; config := config w; quarantine_db := quarantine_db w;
     yara_manager := yara_manager w; scanner := scanner w;
     runtime := runtime w; clock := clock w; ticks := ticks w |}.

Definition set_quarantine_db (d : Database) (w : World) : World :=
  {| disk := disk w; config := config w; quarantine_db := d;
     yara_manager := yara_manager w; scanner := scanner w;
     runtime := runtime w; clock := clock w; ticks := ticks w |}.

Definition set_yara_manager (y : YaraManager.t) (w : World) : World :=
  {| disk := disk w; config := config w; quarantine_db := quarantine_db w;
     yara_manager := y; scanner := scanner w;
     runtime := runtime w; clock := clock w; ticks := ticks w |}.

Definition set_scanner (s : Scanner.t) (w : World) : World :=
  {| disk := disk w; config := config w; quarantine_db := quarantine_db w;
     yara_manager := yara_manager w; scanner := s;
     runtime := runtime w; clock := clock w; ticks := ticks w |}.

Definition set_ticks (n : nat) (w : World) : World :=
  {| disk := disk w; config := config w; quarantine_db := quarantine_db w;
     yara_manager := yara_manager w; scanner := scanner w;
     runtime := runtime w; clock := clock w; ticks := n |}.

(** ** State and exceptions *)

Definition M (A : Type) : Type := World -> outcome A * World.

Definition ret {A} (a : A) : M A := fun w => (Ok a, w).

Definition bind {A B} (c : M A) (k : A -> M B) : M B :=
  fun w =>
    match c w with
    | (Ok a, w') => k a w'
    | (Raise e, w') => (Raise e, w')
    end.

Definition raise {A} (e : exn) : M A := fun w => (Raise e, w).

Definition get : M World := fun w => (Ok w, w).

Definition modify (f : World -> World) : M unit := fun w => (Ok tt, f w).

(** [try: c  except <classes>: h]. *)
Definition try_except {A} (c : M A) (classes : exn -> bool) (h : exn -> M A) : M A :=
  fun w =>
    match c w with
    | (Ok a, w') => (Ok a, w')
    | (Raise e, w') => if classes e then h e w' else (Raise e, w')
    end.

Notation "x <- c ;; k" := (bind c (fun x => k))
  (at level 100, c at next level, right associativity).
Notation "c ;;; k" := (bind c (fun _ => k))
  (at level 100, right associativity).

(** [for x in xs: body x] *)
Fixpoint for_each {A} (xs : list A) (body : A -> M unit) : M unit :=
  match xs with
  | [] => ret tt
  | x :: xs' => body x ;;; for_each xs' body
  end.

(** [[f x for x in xs]], left to right. *)
Fixpoint for_list {A B} (xs : list A) (f : A -> M B) : M (list B) :=
  match xs with
  | [] => ret []
  | x :: xs' => y <- f x ;; ys <- for_list xs' f ;; ret (y :: ys)
  end.

(** [datetime.now()] *)
Definition datetime_now : M datetime :=
  w <- get ;; modify (set_ticks (S (ticks w))) ;;; ret (clock w (ticks w)).

(** ** Files and SQL statements used by the sources *)

(** [shutil.move(src, dst)] for a regular file [src] on one device: into
    [dst] when that is a directory (refusing to replace an entry there),
    otherwise [os.rename], which replaces a regular file at [dst]. *)
Definition shutil_move (src dst : string) : M string :=
  w <- get ;;
  real_dst <-
    (if FS.is_dir (disk w) dst then
       let real_dst := joinpath dst (name src) in
       if FS.path_exists (disk w) real_dst then raise ShutilError
       else ret real_dst
     else ret dst) ;;
  match disk w !! src with
  | None => raise FileNotFoundError
  | Some f =>
      modify (set_disk (<[real_dst := f]> (delete src (disk w)))) ;;;
      ret real_dst
  end.

(** [os.remove(path)] *)
Definition os_remove (path : string) : M unit :=
  w <- get ;;
  match disk w !! path with
  | None => raise FileNotFoundError
  | Some _ => modify (set_disk (delete path (disk w)))
  end.

(** [path.mkdir(parents=True, exist_ok=True)]: directories are implicit
    on this disk, so nothing is stored for them; the call fails when
    [path] is a regular file, or a regular file stands where one of the
    directories above [path] would be. *)
Definition mkdir_parents (path : string) : M unit :=
  w <- get ;;
  if FS.is_file (disk w) path then raise FileExistsError
  else if FS.under_a_file (disk w) path then raise NotADirectoryError
  else ret tt.

(** [path.write_text(text)] / a binary write: the file gets the time of
    the write. *)
Definition write_file (path text : string) : M unit :=
  now <- datetime_now ;;
  w <- get ;;
  modify (set_disk (<[path := File text (epoch now) true]> (disk w))).

(** [open(path, "rb").read()] / [path.read_text()] *)
Definition read_file (path : string) : M string :=
  w <- get ;;
  match disk w !! path with
  | None => raise FileNotFoundError
  | Some f =>
      if f_readable f then ret (f_content f)
      else raise PermissionError
  end.

Definition max_rowid (rs : list Row) : Z :=
  foldr (fun r m => Z.max (id r) m) 0%Z rs.

(** The id that an [INTEGER PRIMARY KEY AUTOINCREMENT] column gives to the
    next row: one more than the largest id that ever existed. *)
Definition next_id (db : Database) : Z :=
  (Z.max (sequence db) (max_rowid (rows db)) + 1)%Z.

(** Binding a value to a parameter of a statement: [sqlite3] takes
    [None], [str], and [int] (so also [bool]) within 64 bits; it refuses a
    [list] or a [dict].  The answer is the exception raised, if any. *)
Definition sqlite_bind (v : pyval) : option exn :=
  match v with
  | PNone | PStr _ | PBool _ => None
  | PInt z =>
      if (- 2 ^ 63 <=? z)%Z && (z <? 2 ^ 63)%Z then None else Some OverflowError
  | PList _ | PDict _ => Some SqliteBindingError
  end.

(** [INSERT INTO quarantine_files (...) VALUES (...)]: the parameters are
    bound in their order ([file_hash] before [rule_name]; the others are
    strings), then the row is inserted; [quarantine_path] is declared
    [UNIQUE]. *)
Definition sql_insert (original quarantine : string) (hash : option pyval)
    (at_ : string) (rule_ : pyval) (details : dict) : M unit :=
  w <- get ;;
  let db := quarantine_db w in
  match sqlite_bind (default PNone hash), sqlite_bind rule_ with
  | Some e, _ => raise e
  | None, Some e => raise e
  | None, None =>
      if existsb (fun r => String.eqb (quarantine_path r) quarantine) (rows db)
      then raise SqliteIntegrityError
      else
        let r := {| id := next_id db; original_path := original;
                    quarantine_path := quarantine; file_hash := hash;
                    quarantined_at := at_; rule_name := rule_;
                    match_details := details;
                    restored_at := None; deleted_at := None |} in
        modify (set_quarantine_db {| rows := rows db ++ [r]; sequence := id r |})
  end.

(** [SELECT ... WHERE <cond>] followed by [cursor.fetchone()] *)
Definition sql_fetchone (cond : Row -> bool) : M (option Row) :=
  w <- get ;; ret (List.find cond (rows (quarantine_db w))).

(** [UPDATE quarantine_files SET <f> WHERE id = ?] *)
Definition sql_update (record_id : Z) (f : Row -> Row) : M unit :=
  w <- get ;;
  let db := quarantine_db w in
  modify (set_quarantine_db
            {| rows := List.map (fun r => if (id r =? record_id)%Z then f r else r) (rows db);
               sequence := sequence db |}).

Definition set_restored_at (t : string) (r : Row) : Row :=
  {| id := id r; original_path := original_path r;
     quarantine_path := quarantine_path r; file_hash := file_hash r;
     quarantined_at := quarantined_at r; rule_name := rule_name r;
     match_details := match_details r;
     restored_at := Some t; deleted_at := deleted_at r |}.

Definition set_deleted_at (t : string) (r : Row) : Row :=
  {| id := id r; original_path := original_path r;
     quarantine_path := quarantine_path r; file_hash := file_hash r;
     quarantined_at := quarantined_at r; rule_name := rule_name r;
     match_details := match_details r;
     restored_at := restored_at r; deleted_at := Some t |}.

Definition is_null {A} (o : option A) : bool :=
  match o with None => true | Some _ => false end.

(** ** Containment store ([falcon/quarantine.py]) *)


Definition _generate_quarantine_path (original_path : string) : M string :=
  w <- get ;;
  now <- datetime_now ;;
  let timestamp := strftime_YmdHMSf now in
  let new_name := (name original_path ++ "_" ++ timestamp)%string in
  ret (joinpath (Config.quarantine_dir (config w)) new_name).

(** The handler of [quarantine_file] names
    [(shutil.Error, sqlite3.Error, json.JSONEncodeError)]; the module
    [json] has no [JSONEncodeError], so evaluating the clause while an
    exception is in flight raises [AttributeError] in its place. *)
Definition quarantine_file (file_path : string) (match_info : dict)
    : M (option string) :=
  w <- get ;;
  if negb (FS.is_file (disk w) file_path) then ret None
  else
    quarantine_path <- _generate_quarantine_path file_path ;;
    try_except
      (shutil_move file_path quarantine_path ;;;
       now <- datetime_now ;;
       let quarantined_at := isoformat now in
       let rule_name := default (PStr "Unknown") (dict_get match_info "rule_name") in
       let match_details := match_info in
       sql_insert file_path quarantine_path (dict_get match_info "file_hash")
                  quarantined_at rule_name match_details ;;;
       ret (Some quarantine_path))
      Exception
      (fun _ => raise AttributeError).

Definition restore_file (record_id : Z) : M bool :=
  record <- sql_fetchone (fun r => (id r =? record_id)%Z && is_null (restored_at r)) ;;
  match record with
  | None => ret false
  | Some record =>
      let original_path := original_path record in
      let quarantine_path := quarantine_path record in
      w <- get ;;
      if negb (FS.is_file (disk w) quarantine_path) then ret false
      else if FS.path_exists (disk w) original_path then ret false
      else
        try_except
          (mkdir_parents (parent original_path) ;;;
           shutil_move quarantine_path original_path ;;;
           now <- datetime_now ;;
           let restored_at := isoformat now in
           sql_update record_id (set_restored_at restored_at) ;;;
           ret true)
          (fun e => shutil_Error e || sqlite3_Error e)
          (fun _ => ret false)
  end.

Definition delete_quarantined_file (record_id : Z) : M bool :=
  record <- sql_fetchone (fun r => (id r =? record_id)%Z && is_null (deleted_at r)) ;;
  match record with
  | None => ret false
  | Some record =>
      let quarantine_path := quarantine_path record in
      try_except
        (w <- get ;;
         (if FS.is_file (disk w) quarantine_path
          then os_remove quarantine_path
          else ret tt) ;;;
         now <- datetime_now ;;
         let deleted_at := isoformat now in
         sql_update record_id (set_deleted_at deleted_at) ;;;
         ret true)
        (fun e => OSError e || sqlite3_Error e)
        (fun _ => ret false)
  end.

(** Rows that are neither restored nor deleted. *)
Definition list_quarantined_files : M (list Row) :=
  w <- get ;;
  ret (List.filter (fun r => is_null (restored_at r) && is_null (deleted_at r))
                   (rows (quarantine_db w))).


(** ** Rule compiler and store ([falcon/yara_manager.py]) *)

(** [directory.rglob("*" + ending)]: the entries below [directory] whose
    name ends with [ending], those of a directory before those of its
    sub-directories. *)
Definition rglob (directory ending : string) : M (list string) :=
  w <- get ;;
  ret (List.filter (fun p => endswith (name p) ending)
                   (FS.files_below (disk w) directory)).

Definition set_rules (r : option Rules) (c : option string) : M unit :=
  w <- get ;;
  modify (set_yara_manager
            {| YaraManager.rules_dir := YaraManager.rules_dir (yara_manager w);
               YaraManager._rules := r;
               YaraManager._rules_checksum := c |}).

(** [if path.exists(): path.unlink()] *)
Definition unlink_if_exists (path : string) : M unit :=
  w <- get ;;
  if FS.path_exists (disk w) path then os_remove path else ret tt.

(** The hasher is the text fed to it so far. *)
Fixpoint hasher_update_all (hasher : string) (files : list string) : M string :=
  match files with
  | [] => ret hasher
  | file_path :: rest =>
      data <- read_file file_path ;;
      hasher_update_all (hasher ++ data) rest
  end.

Definition _calculate_rules_checksum : M string :=
  w <- get ;;
  let self := yara_manager w in
  let hasher := "" in
  yar_files <- rglob (YaraManager.rules_dir self) ".yar" ;;
  yara_files <- rglob (YaraManager.rules_dir self) ".yara" ;;
  let all_rule_files := sorted (yar_files ++ yara_files) in
  match yar_files with
  | [] => ret ""
  | _ =>
      hasher <- hasher_update_all hasher yar_files ;;
      ret (md5_hexdigest (runtime w) hasher)
  end.

(** [yara.compile(filepaths=.., error_on_warning=True)]: the library
    opens every file itself and fails on one it cannot read. *)
Definition yara_compile_filepaths (filepaths : list (string * string)) : M Rules :=
  sources <- for_list filepaths
               (fun '(ns, path) =>
                  try_except (src <- read_file path ;; ret (ns, src))
                             Exception (fun _ => raise YaraError)) ;;
  w <- get ;;
  match yara_compile (runtime w) sources with
  | Ok r => ret r
  | Raise e => raise e
  end.

Definition _compile_rules : M (option Rules) :=
  w <- get ;;
  let self := yara_manager w in
  yar_files <- rglob (YaraManager.rules_dir self) ".yar" ;;
  yara_files <- rglob (YaraManager.rules_dir self) ".yara" ;;
  let rule_file_paths := sorted (yar_files ++ yara_files) in
  match rule_file_paths with
  | [] => ret None
  | _ =>
      let filepaths := fold_left (fun d p => dict_set d (name p) p) rule_file_paths [] in
      try_except
        (compiled <- yara_compile_filepaths filepaths ;;
         match rule_identifiers compiled with
         | [] =>
             unlink_if_exists (YaraManager.compiled_rules_path self) ;;;
             unlink_if_exists (YaraManager.checksum_path self) ;;;
             ret None
         | _ => ret (Some compiled)
         end)
        yara_Error
        (fun _ => ret None)
  end.

Definition _save_compiled_rules (rules : Rules) (checksum : string) : M unit :=
  w <- get ;;
  let self := yara_manager w in
  try_except
    (write_file (YaraManager.compiled_rules_path self) (yara_save (runtime w) rules) ;;;
     write_file (YaraManager.checksum_path self) checksum)
    Exception
    (fun _ => ret tt).

(** [yara.load(path)] *)
Definition yara_load_path (path : string) : M Rules :=
  blob <- try_except (read_file path) Exception (fun _ => raise YaraError) ;;
  w <- get ;;
  match yara_load (runtime w) blob with
  | Ok r => ret r
  | Raise e => raise e
  end.

Definition load_rules (force_recompile : bool) : M unit :=
  w <- get ;;
  let self := yara_manager w in
  mkdir_parents (YaraManager.rules_dir self) ;;;
  current_checksum <- _calculate_rules_checksum ;;
  (* the first branch of the source ends in [return]; [loaded] records it *)
  loaded <-
    (if negb force_recompile
        && FS.path_exists (disk w) (YaraManager.compiled_rules_path self)
        && FS.path_exists (disk w) (YaraManager.checksum_path self)
     then
       stored_checksum <- read_file (YaraManager.checksum_path self) ;;
       if String.eqb stored_checksum current_checksum then
         try_except
           (r <- yara_load_path (YaraManager.compiled_rules_path self) ;;
            set_rules (Some r) (Some current_checksum) ;;;
            ret true)
           yara_Error
           (fun _ => ret false)
       else ret false
     else ret false) ;;
  if loaded : bool then ret tt
  else
    compiled_rules <- _compile_rules ;;
    match compiled_rules with
    | Some r =>
        set_rules (Some r) (Some current_checksum) ;;;
        _save_compiled_rules r current_checksum
    | None =>
        set_rules None None ;;;
        unlink_if_exists (YaraManager.compiled_rules_path self) ;;;
        unlink_if_exists (YaraManager.checksum_path self)
    end.

Definition get_rules : M (option Rules) :=
  w <- get ;; ret (YaraManager._rules (yara_manager w)).

Definition check_for_updates_and_reload : M bool :=
  new_checksum <- _calculate_rules_checksum ;;
  w <- get ;;
  if bool_decide (Some new_checksum ≠ YaraManager._rules_checksum (yara_manager w))
  then load_rules true ;;; ret true
  else ret false.

(** [YaraManager.__init__] *)
Definition YaraManager_init : M unit :=
  w <- get ;;
  modify (set_yara_manager
            {| YaraManager.rules_dir := Config.rules_dir (config w);
               YaraManager._rules := None;
               YaraManager._rules_checksum := None |}) ;;;
  load_rules false.

(** ** Scan coordinator ([falcon/scanner.py]) *)

(** [Scanner.__init__]: the rules are fetched from the manager once. *)
Definition Scanner_init : M unit :=
  r <- get_rules ;;
  modify (set_scanner {| Scanner.rules := r; Scanner.last_scan_times := ∅ |}).

Definition system_paths : list string := ["/proc"; "/sys"; "/dev"].

Definition _is_file_scannable (cfg : Config.t) (fs : gmap string file)
    (file_path : string) : bool :=
  match fs !! file_path with
  | None => false                                   (* not file_path.is_file() *)
  | Some f =>
      if negb (f_readable f) then false             (* not os.access(.., R_OK) *)
      else
        let file_size_mb := (inject_Z (FS.st_size f) / inject_Z (1024 * 1024))%Q in
        if negb (Qle_bool file_size_mb (Config.max_file_size_mb cfg)) then false
        else
          let ext := lower (suffix file_path) in
          if truthy (Config.allowed_extensions cfg)
             && negb (str_in ext (default [] (Config.allowed_extensions cfg)))
          then false
          else if truthy (Config.blocked_extensions cfg)
                  && str_in ext (default [] (Config.blocked_extensions cfg))
          then false
          else if String.eqb (suffix file_path) ".yar"
                  || String.eqb (suffix file_path) ".yarac"
          then false
          else if existsb (fun p => startswith file_path p) system_paths
          then false
          else true
  end.

(** The [match_info] dictionary built for one rule hit. *)
Definition make_match_info (file_path : string) (m : YaraMatch) : dict :=
  [ ("file_path", PStr file_path);
    ("rule_name", PStr (rule m));
    ("namespace", PStr (namespace m));
    ("tags", PList (List.map PStr (tags m)));
    ("meta", PDict (meta m));
    ("strings", PList (List.map PStr (strings m)));
    ("description", default (PStr "N/A") (dict_get (meta m) "description"));
    ("confidence", default (PStr "N/A") (dict_get (meta m) "confidence"));
    ("action", PStr "Detected") ].

(** [f"{quarantine_path}"] *)
Definition str_optional_path (p : option string) : string :=
  match p with Some p => p | None => "None" end.

(** The body of [for match in yara_matches]: the dictionary as it stands
    in [matches_found] once the iteration is over. *)
Definition handle_match (file_path : string) (quarantine_matches : bool)
    (m : YaraMatch) : M dict :=
  let match_info := make_match_info file_path m in
  if quarantine_matches then
    try_except
      (quarantine_path <- quarantine_file file_path match_info ;;
       ret (dict_set match_info "action"
              (PStr ("Quarantined to " ++ str_optional_path quarantine_path))))
      Exception
      (fun q_e =>
         ret (dict_set match_info "action"
                (PStr ("Failed to quarantine: " ++ exn_str q_e))))
  else ret match_info.

(** [matches_found] is what the loop has produced so far.  Inside the
    outer [try] only [rules.match] can raise without being caught by the
    loop's own handler, and at that point [matches_found] is still empty:
    the outer handler therefore returns the empty list. *)
Definition _scan_file (file_path : string) (quarantine_matches : bool)
    : M (list dict) :=
  w <- get ;;
  if negb (_is_file_scannable (config w) (disk w) file_path) then ret []
  else
    try_except
      (match Scanner.rules (scanner w) with
       | None => ret []
       | Some rules =>
           yara_matches <-
             (match disk w !! file_path with
              | Some f =>
                  match rules_match rules (f_content f) with
                  | Ok ms => ret ms
                  | Raise e => raise e
                  end
              | None => raise YaraError
              end) ;;
           for_list yara_matches (handle_match file_path quarantine_matches)
       end)
      Exception
      (fun _ => ret []).

Record ScanSummary : Type := {
  scanned_path : string;
  total_files_scanned : nat;
  matches : list dict;
}.

(** [for root, _, files in os.walk(target_path)]: every regular file
    below the target, those of a directory before those of its
    sub-directories. *)
Definition os_walk (fs : gmap string file) (target_path : string) : list string :=
  FS.files_below fs target_path.

(** The test that skips a file of the walk in an incremental scan. *)
Definition unchanged_since_last_scan (self : Scanner.t) (fs : gmap string file)
    (file_path : string) : bool :=
  match Scanner.last_scan_times self !! file_path, fs !! file_path with
  | Some last, Some f => (f_mtime f <=? last)%Z
  | _, _ => false
  end.

(** [files_to_scan] after the enumeration; [None] when the path is
    neither a file nor a directory. *)
Definition files_to_scan (w : World) (target_path : string) (incremental : bool)
    : option (list string) :=
  if FS.is_file (disk w) target_path then Some [target_path]
  else if FS.is_dir (disk w) target_path then
    Some (List.filter
            (fun file_path =>
               negb (incremental
                     && unchanged_since_last_scan (scanner w) (disk w) file_path))
            (os_walk (disk w) target_path))
  else None.

(** [self.last_scan_times[file_path] = file_path.stat().st_mtime], for a
    path that still exists; the paths of [files_to_scan] were regular
    files when they were enumerated. *)
Definition remember_scan_time (file_path : string) : M unit :=
  w <- get ;;
  match disk w !! file_path with
  | Some f =>
      modify (set_scanner
                {| Scanner.rules := Scanner.rules (scanner w);
                   Scanner.last_scan_times :=
                     <[file_path := f_mtime f]> (Scanner.last_scan_times (scanner w)) |})
  | None => ret tt
  end.

(** The futures are submitted in the order of [files_to_scan] and their
    results are collected in that order; the calls are run here one after
    the other. *)
Definition scan_path (target_path : string) (incremental quarantine_matches : bool)
    : M ScanSummary :=
  w <- get ;;
  match files_to_scan w target_path incremental with
  | None =>
      ret {| scanned_path := target_path; total_files_scanned := 0; matches := [] |}
  | Some files_to_scan =>
      results <- for_list files_to_scan
                   (fun file_path => _scan_file file_path quarantine_matches) ;;
      let total_files_scanned := length results in
      let all_matches := concat results in
      (if incremental then for_each files_to_scan remember_scan_time else ret tt) ;;;
      ret {| scanned_path := target_path;
             total_files_scanned := total_files_scanned;
             matches := all_matches |}
  end.

(** ** Scan state machine ([ScannerAdapter] in [falcon/tui_integration.py]) *)

Module ScannerAdapter.

Inductive ScanState : Type := IDLE | SCANNING | PAUSED | UPDATING | ERROR.

Definition value (s : ScanState) : string :=
  match s with
  | IDLE => "Idle"
  | SCANNING => "Scanning"
  | PAUSED => "Paused"
  | UPDATING => "Updating"
  | ERROR => "Error"
  end.

Definition state_eqb (a b : ScanState) : bool :=
  match a, b with
  | IDLE, IDLE | SCANNING, SCANNING | PAUSED, PAUSED
  | UPDATING, UPDATING | ERROR, ERROR => true
  | _, _ => false
  end.

(** [{"type": kind, "data": {"msg": msg}}] *)
Record Event : Type := { kind : string; msg : string }.

(** The task made by [asyncio.create_task(self._run_scan(..))]. *)
Record Task : Type := {
  task_path : string;
  task_quarantine_matches : bool;
  task_incremental : bool;
  task_cancelled : bool;
}.

Record t : Type := {
  state : ScanState;
  pause_event : bool;
  cancel_event : bool;
  scan_task : option Task;
  event_queue : list Event;      (* the unbounded [asyncio.Queue], oldest first *)
}.

Definition put (e : Event) (self : t) : t :=
  {| state := state self; pause_event := pause_event self;
     cancel_event := cancel_event self; scan_task := scan_task self;
     event_queue := event_queue self ++ [e] |}.

(** The statistics and the start time that [start_scan] resets are not
    part of this record. *)
Definition start_scan (path : string) (quarantine_matches incremental : bool)
    (self : t) : t :=
  if negb (state_eqb (state self) IDLE) then
    put {| kind := "error";
           msg := "Cannot start scan: scanner is " ++ value (state self) |} self
  else
    put {| kind := "info"; msg := "Starting scan of " ++ path |}
      {| state := SCANNING; pause_event := false; cancel_event := false;
         scan_task := Some {| task_path := path;
                              task_quarantine_matches := quarantine_matches;
                              task_incremental := incremental;
                              task_cancelled := false |};
         event_queue := event_queue self |}.

Definition pause (self : t) : t :=
  if state_eqb (state self) SCANNING then
    put {| kind := "info"; msg := "Scan paused" |}
      {| state := PAUSED; pause_event := true;
         cancel_event := cancel_event self; scan_task := scan_task self;
         event_queue := event_queue self |}
  else self.

Definition resume (self : t) : t :=
  if state_eqb (state self) PAUSED then
    put {| kind := "info"; msg := "Scan resumed" |}
      {| state := SCANNING; pause_event := false;
         cancel_event := cancel_event self; scan_task := scan_task self;
         event_queue := event_queue self |}
  else self.

Definition cancel_task (k : Task) : Task :=
  {| task_path := task_path k;
     task_quarantine_matches := task_quarantine_matches k;
     task_incremental := task_incremental k;
     task_cancelled := true |}.

Definition cancel (self : t) : t :=
  if state_eqb (state self) SCANNING || state_eqb (state self) PAUSED then
    put {| kind := "info"; msg := "Scan cancelled" |}
      {| state := IDLE; pause_event := pause_event self;
         cancel_event := true;
         scan_task := cancel_task <$> scan_task self;
         event_queue := event_queue self |}
  else self.

End ScannerAdapter.

(** ** Concrete worlds for the examples *)

Module Demo.

Definition contains (needle hay : string) : bool :=
  match String.index 0 needle hay with Some _ => true | None => false end.

Definition digits (n : nat) : string := NilEmpty.string_of_uint (Nat.to_uint n).

(** A clock that advances by one microsecond per reading. *)
Definition microsecond_clock (n : nat) : datetime :=
  {| epoch := 1700000000 + Z.of_nat n;
     strftime_YmdHMSf := ("2023111422132000000" ++ digits n)%string;
     isoformat := ("2023-11-14T22:13:20.00000" ++ digits n)%string |}.

(** A stand-in for the YARA compiler: the text of a rule file is the
    literal that the rule looks for, the namespace names the hit. *)
Definition compile (sources : list (string * string)) : outcome Rules :=
  Ok {| rule_identifiers := List.map fst sources;
        rules_match := fun content =>
          Ok (List.map (fun '(ns, src) =>
                          {| rule := src; namespace := ns; tags := [];
                             meta := []; strings := [src] |})
                       (List.filter (fun '(ns, src) => contains src content) sources)) |}.

(** A stand-in for the libraries: the digest is an injective tagging of
    its input, compiled rules are not read back from their saved form. *)
Definition libraries : Runtime :=
  {| md5_hexdigest := fun s => ("md5:" ++ s)%string;
     yara_compile := compile;
     yara_save := fun _ => "YARA";
     yara_load := fun _ => Raise YaraError |}.

(** A world in which no object has been set up yet. *)
Definition world (rt : Runtime) (cfg : Config.t) (fs : gmap string file) : World :=
  {| disk := fs; config := cfg;
     quarantine_db := {| rows := []; sequence := 0 |};
     yara_manager := {| YaraManager.rules_dir := Config.rules_dir cfg;
                        YaraManager._rules := None;
                        YaraManager._rules_checksum := None |};
     scanner := {| Scanner.rules := None; Scanner.last_scan_times := ∅ |};
     runtime := rt; clock := microsecond_clock; ticks := 0 |}.

(** The configuration of [tests/test_scanner.py]. *)
Definition cfg : Config.t := {|
  Config.max_file_size_mb := inject_Z 1;
  Config.allowed_extensions := None;
  Config.blocked_extensions := Some [".tmp"];
  Config.quarantine_dir := "/srv/falcondefender/quarantine";
  Config.rules_dir := "/srv/falcondefender/rules";
|}.

(** Start-up: the manager loads the rules, then the scanner is built. *)
Definition boot : M unit := YaraManager_init ;;; Scanner_init.

(** An allow-list and a block-list that share the extension [.exe]. *)
Definition cfg_allow_and_block : Config.t := {|
  Config.max_file_size_mb := inject_Z 100;
  Config.allowed_extensions := Some [".txt"; ".exe"];
  Config.blocked_extensions := Some [".exe"; ".tmp"];
  Config.quarantine_dir := "/srv/falcondefender/quarantine";
  Config.rules_dir := "/srv/falcondefender/rules";
|}.

(** A rules directory with one source file of each of the two kinds
    that the rule store compiles. *)
Definition rules_disk (yar_text yara_text : string) : gmap string file :=
  {[ "/srv/falcondefender/rules/a.yar" := File yar_text 1 true;
     "/srv/falcondefender/rules/extra.yara" := File yara_text 2 true ]}.

(** The adapter as [ScannerAdapter.__init__] leaves it. *)
Definition idle_adapter : ScannerAdapter.t :=
  {| ScannerAdapter.state := ScannerAdapter.IDLE;
     ScannerAdapter.pause_event := false;
     ScannerAdapter.cancel_event := false;
     ScannerAdapter.scan_task := None;
     ScannerAdapter.event_queue := [] |}.

(** Rules whose matching always runs out of time, and rules that never
    find anything. *)
Definition rules_timing_out : Rules :=
  {| rule_identifiers := ["slow"];
     rules_match := fun _ => Raise YaraTimeoutError |}.

Definition rules_finding_nothing : Rules :=
  {| rule_identifiers := ["quiet"];
     rules_match := fun _ => Ok [] |}.

(** A directory of [tests/test_scanner.py]: a clean file, a file with a
    signature and a file with a blocked extension. *)
Definition data_disk : gmap string file :=
  {[ "/data/clean.txt" := File "This is a clean file." 11 true;
     "/data/malicious.bin" := File "some binary data with EVIL" 10 true;
     "/data/temp.tmp" := File "This is a temporary file." 12 true ]}.

(** One rule file and one document that holds the literal [BAD]. *)
Definition office_disk : gmap string file :=
  {[ "/srv/falcondefender/rules/a.yar" := File "EVIL" 1 true;
     "/data/report.txt" := File "BAD things" 5 true ]}.

(** An update that arrives out of band: the rule file now looks for
    [BAD]. *)
Definition update_rule_file (w : World) : World :=
  set_disk (<["/srv/falcondefender/rules/a.yar" := File "BAD" 20 true]> (disk w)) w.

(** The names of the rules of the manager's active rule set that hit a
    content. *)
Definition active_rules_hits (w : World) (content : string) : option (list string) :=
  match YaraManager._rules (yara_manager w) with
  | Some r =>
      match rules_match r content with
      | Ok ms => Some (List.map rule ms)
      | Raise _ => None
      end
  | None => None
  end.

(** A scanner whose rules are given directly. *)
Definition with_rules (r : Rules) (w : World) : World :=
  set_scanner {| Scanner.rules := Some r;
                 Scanner.last_scan_times := Scanner.last_scan_times (scanner w) |} w.

(** The data directory before any scan, under rules that find nothing. *)
Definition quiet_world : World :=
  with_rules rules_finding_nothing (world libraries cfg data_disk).

(** The same directory under rules whose matching times out. *)
Definition slow_world : World :=
  with_rules rules_timing_out (world libraries cfg data_disk).

(** The same directory once [clean.txt] was scanned at its present
    modification time and [malicious.bin] at an earlier one. *)
Definition rescanned_world : World :=
  set_scanner {| Scanner.rules := Some rules_finding_nothing;
                 Scanner.last_scan_times :=
                   {[ "/data/clean.txt" := 11%Z; "/data/malicious.bin" := 9%Z ]} |}
              (world libraries cfg data_disk).

End Demo.

(** ** Notions used in the statements *)

(** A call of the adapter reports an error when it puts an ["error"]
    event on the queue. *)
Definition reports_error (before after : ScannerAdapter.t) : Prop :=
  ∃ e, e ∈ drop (length (ScannerAdapter.event_queue before))
              (ScannerAdapter.event_queue after)
       ∧ ScannerAdapter.kind e = "error".

(** The matching of [file_path] raises: the file passes the eligibility
    filter and [rules.match] answers with an exception. *)
Definition match_raises (w : World) (file_path : string) : Prop :=
  ∃ rules f e,
    Scanner.rules (scanner w) = Some rules
    ∧ disk w !! file_path = Some f
    ∧ _is_file_scannable (config w) (disk w) file_path = true
    ∧ rules_match rules (f_content f) = Raise e.

(** A file was actually scanned in a session when it was submitted to
    [_scan_file] and the eligibility filter let it through. *)
Definition actually_scanned (w : World) (target_path : string)
    (incremental : bool) (file_path : string) : Prop :=
  file_path ∈ default [] (files_to_scan w target_path incremental)
  ∧ _is_file_scannable (config w) (disk w) file_path = true.

(** The reading of the cache rule under which only files that were
    actually scanned get a new or refreshed entry, and each of them gets
    one (sessions without quarantine). *)
Definition cache_follows_scanned_files : Prop :=
  ∀ w target_path incremental file_path,
    let w' := (scan_path target_path incremental false w).2 in
    (Scanner.last_scan_times (scanner w') !! file_path
       ≠ Scanner.last_scan_times (scanner w) !! file_path →
     actually_scanned w target_path incremental file_path)
    ∧ (actually_scanned w target_path incremental file_path →
       Scanner.last_scan_times (scanner w') !! file_path
       = f_mtime <$> disk w !! file_path).

(** The reading of the error rule under which the result of a session
    carries the list of the files whose matching raised. *)
Definition summary_lists_failed_files : Prop :=
  ∃ errors : ScanSummary → list string,
    ∀ w target_path incremental summary,
      (scan_path target_path incremental false w).1 = Ok summary →
      ∀ file_path,
        file_path ∈ errors summary
        ↔ file_path ∈ default [] (files_to_scan w target_path incremental)
          ∧ match_raises w file_path.

(** The values that [quarantine_file] takes out of [match_info] for the
    row ([file_hash] and [rule_name]) are of a kind that [sqlite3]
    binds. *)
Definition bindable (match_info : dict) : Prop :=
  sqlite_bind (default PNone (dict_get match_info "file_hash")) = None
  ∧ sqlite_bind (default (PStr "Unknown") (dict_get match_info "rule_name")) = None.

(** [path] is a directory on the disk or can be made one: neither it
    nor a place above it is a regular file. *)
Definition can_be_directory (fs : gmap string file) (path : string) : Prop :=
  FS.is_file fs path = false ∧ FS.under_a_file fs path = false.

(** The reading of the round trip under which it holds for every regular
    file and every state of the store: the quarantine returns a storage
    path and leaves a record of it, and if the original path is then
    unoccupied, restoring that record puts the content back and empties
    the storage path. *)
Definition round_trip_for_every_file : Prop :=
  ∀ w file_path f match_info,
    disk w !! file_path = Some f →
    ∃ storage_path w1 record,
      quarantine_file file_path match_info w = (Ok (Some storage_path), w1)
      ∧ record ∈ rows (quarantine_db w1)
      ∧ original_path record = file_path
      ∧ quarantine_path record = storage_path
      ∧ (FS.path_exists (disk w1) file_path = false →
         ∃ w2, restore_file (id record) w1 = (Ok true, w2)
               ∧ disk w2 !! file_path = Some f
               ∧ FS.is_file (disk w2) storage_path = false).

(** [keeps R c]: whatever [c] does and however it ends, the world it
    leaves is related by [R] to the one it started from. *)
Definition keeps {A} (R : relation World) (c : M A) : Prop :=
  ∀ w, R w (c w).2.

(** [total c]: [c] never lets an exception escape. *)
Definition total {A} (c : M A) : Prop :=
  ∀ w, ∃ a w', c w = (Ok a, w').

(** The scanner object is left alone. *)
Definition same_scanner : relation World := fun w w' => scanner w' = scanner w.

(** ** The store as a whole *)

(** What the table declares: [id] is the primary key and
    [quarantine_path] is [UNIQUE]. *)
Definition wf_db (db : Database) : Prop :=
  NoDup (List.map id (rows db)) ∧ NoDup (List.map quarantine_path (rows db)).

(** The columns of a row that identify it. *)
Definition row_key (r : Row) : Z * string * string :=
  (id r, original_path r, quarantine_path r).

(** A call of one of the three operations of the store. *)
Inductive store_call : Type :=
| CallQuarantine (file_path : string) (match_info : dict)
| CallRestore (record_id : Z)
| CallDelete (record_id : Z).

(** The world after a call, however the call ended. *)
Definition after_store_call (c : store_call) (w : World) : World :=
  match c with
  | CallQuarantine file_path match_info => (quarantine_file file_path match_info w).2
  | CallRestore record_id => (restore_file record_id w).2
  | CallDelete record_id => (delete_quarantined_file record_id w).2
  end.

Definition after_store_calls (cs : list store_call) (w : World) : World :=
  fold_left (fun w c => after_store_call c w) cs w.

(** ** More concrete worlds *)

Module Sample.

(** [malicious.bin] has just been quarantined from the data directory. *)
Definition quarantined_world : World :=
  (quarantine_file "/data/malicious.bin" [("rule_name", PStr "EVIL")]
     Demo.quiet_world).2.

(** The file was then restored. *)
Definition restored_world : World := (restore_file 1 quarantined_world).2.

(** A clock that stands still. *)
Definition frozen_clock (n : nat) : datetime := Demo.microsecond_clock 0.

(** The table already records the storage name that the next quarantine
    of [malicious.bin] generates: the clock has not moved since an earlier
    quarantine of a file of that name, which was restored since. *)
Definition colliding_world : World :=
  {| disk := Demo.data_disk; config := Demo.cfg;
     quarantine_db :=
       {| rows := [ {| id := 1; original_path := "/data/malicious.bin";
                       quarantine_path :=
                         "/srv/falcondefender/quarantine/malicious.bin_20231114221320000000";
                       file_hash := None;
                       quarantined_at := "2023-11-14T22:13:20.000000";
                       rule_name := PStr "EVIL"; match_details := [];
                       restored_at := Some "2023-11-14T22:13:20.000000";
                       deleted_at := None |} ];
          sequence := 1 |};
     yara_manager := yara_manager Demo.quiet_world;
     scanner := scanner Demo.quiet_world;
     runtime := Demo.libraries; clock := frozen_clock; ticks := 0 |}.

End Sample.

Module Sample2.

(** After the quarantine a new file was written at the original path. *)
Definition reoccupied_world : World :=
  set_disk (<["/data/malicious.bin" := File "a newer file" 20 true]>
              (disk Sample.quarantined_world))
           Sample.quarantined_world.

End Sample2.

(** Nothing but the scanner's cache of scan times differs between two
    worlds. *)
Definition only_cache_differs : relation World :=
  fun w w' =>
    w' = set_scanner {| Scanner.rules := Scanner.rules (scanner w);
                        Scanner.last_scan_times := Scanner.last_scan_times (scanner w') |}
                     w.

Module Sample3.

(** Two rules, one per literal; both hit [malicious.bin]. *)
Definition rules_two_literals : Rules :=
  {| rule_identifiers := ["EVIL"; "binary"];
     rules_match := fun content =>
       Ok (List.map (fun n => {| rule := n; namespace := "default"; tags := [];
                                 meta := []; strings := [n] |})
             (List.filter (fun n => Demo.contains n content) ["EVIL"; "binary"])) |}.

Definition hunting_world : World :=
  Demo.with_rules rules_two_literals
    (Demo.world Demo.libraries Demo.cfg Demo.data_disk).

(** The office disk before any object is set up. *)
Definition office_world : World :=
  Demo.world Demo.libraries Demo.cfg Demo.office_disk.

(** A manager that looked at a rules directory without a single rule
    file. *)
Definition ruleless_world : World :=
  (YaraManager_init (Demo.world Demo.libraries Demo.cfg Demo.data_disk)).2.

End Sample3.

(** What [_scan_file] returns when it does not quarantine. *)
Definition detections (w : World) (file_path : string) : list dict :=
  if _is_file_scannable (config w) (disk w) file_path then
    match Scanner.rules (scanner w), disk w !! file_path with
    | Some rules, Some f =>
        match rules_match rules (f_content f) with
        | Ok ms => List.map (make_match_info file_path) ms
        | Raise _ => []
        end
    | _, _ => []
    end
  else [].


(** The manager object is left alone and no file appears. *)
Definition no_file_appears : relation World :=
  fun w w' =>
    yara_manager w' = yara_manager w
    ∧ ∀ q, disk w !! q = None → disk w' !! q = None.

(** The manager object is left alone. *)
Definition same_manager : relation World :=
  fun w w' => yara_manager w' = yara_manager w.

(** ** More of the adapter ([falcon/tui_integration.py]) *)

(** [needle in hay] on strings. *)
Definition str_contains (needle hay : string) : bool :=
  match String.index 0 needle hay with Some _ => true | None => false end.

(** [ScannerAdapter._get_severity] *)
Definition _get_severity (match_ : dict) : string :=
  match default (PStr "medium") (dict_get match_ "confidence") with
  | PStr confidence =>
      let confidence := lower confidence in
      if str_contains "high" confidence || str_contains "critical" confidence
      then "high"
      else if str_contains "low" confidence then "low"
      else "medium"
  | _ => "medium"
  end.

(** The calls that the interface makes on the adapter. *)
Inductive adapter_call : Type :=
| CallStartScan (path : string) (quarantine_matches incremental : bool)
| CallPause
| CallResume
| CallCancel.

Definition after_adapter_call (c : adapter_call) (self : ScannerAdapter.t)
    : ScannerAdapter.t :=
  match c with
  | CallStartScan path quarantine_matches incremental =>
      ScannerAdapter.start_scan path quarantine_matches incremental self
  | CallPause => ScannerAdapter.pause self
  | CallResume => ScannerAdapter.resume self
  | CallCancel => ScannerAdapter.cancel self
  end.

Definition after_adapter_calls (cs : list adapter_call) (self : ScannerAdapter.t)
    : ScannerAdapter.t :=
  fold_left (fun self c => after_adapter_call c self) cs self.

Definition is_start_scan (c : adapter_call) : bool :=
  match c with CallStartScan _ _ _ => true | _ => false end.

(** The adapter has a scan that was not cancelled. *)
Definition has_live_task (self : ScannerAdapter.t) : Prop :=
  ∃ k, ScannerAdapter.scan_task self = Some k
       ∧ ScannerAdapter.task_cancelled k = false.

(** What the flags say while a scan is under way. *)
Definition flags_agree_with_state (self : ScannerAdapter.t) : Prop :=
  match ScannerAdapter.state self with
  | ScannerAdapter.SCANNING =>
      ScannerAdapter.pause_event self = false
      ∧ ScannerAdapter.cancel_event self = false ∧ has_live_task self
  | ScannerAdapter.PAUSED =>
      ScannerAdapter.pause_event self = true
      ∧ ScannerAdapter.cancel_event self = false ∧ has_live_task self
  | _ => True
  end.

Module Sample4.

(** An adapter whose scan ended with an exception. *)
Definition failed_adapter : ScannerAdapter.t :=
  {| ScannerAdapter.state := ScannerAdapter.ERROR;
     ScannerAdapter.pause_event := false;
     ScannerAdapter.cancel_event := false;
     ScannerAdapter.scan_task := None;
     ScannerAdapter.event_queue := [] |}.

End Sample4.

(** ** The configuration object ([ConfigManager] in [falcon/config.py]) *)

Module ConfigManager.

(** [self._config.get(key, default)] *)
Definition get (_config : dict) (key : string) (default : pyval) : pyval :=
  match dict_get _config key with
  | Some value => value
  | None => default
  end.

(** The loop of [set] over the remaining [keys], on the dictionary
    [current_level]; the dictionaries along the way are updated in place
    in the source, which shows here as the rebuilt entry. *)
Fixpoint set_keys (current_level : dict) (keys : list string) (value : pyval)
    : dict :=
  match keys with
  | [] => current_level
  | k :: rest =>
      match rest with
      | [] => dict_set current_level k value
      | _ :: _ =>
          let next_level :=
            match dict_get current_level k with
            | Some (PDict d) => d
            | _ => []
            end in
          dict_set current_level k (PDict (set_keys next_level rest value))
      end
  end.

(** [set] on [self._config]; the [save_config] that follows writes the
    result to the configuration file. *)
Definition set (_config : dict) (key : string) (value : pyval) : dict :=
  set_keys _config (split "." key) value.

End ConfigManager.

(** The configuration of [_get_default_config] as far as the examples
    need it. *)
Definition sample_config : dict :=
  [ ("max_file_size_mb", PInt 100);
    ("allowed_extensions", PList []);
    ("email_reporting",
     PDict [ ("enabled", PBool false); ("smtp_port", PInt 587) ]) ].

(** * Properties *)

(** ** Eligibility filter *)

Lemma str_in_true x xs : str_in x xs = true ↔ x ∈ xs.
Proof.
  unfold str_in. rewrite existsb_exists. split.
  - intros (y & Hy & Heq). apply String.eqb_eq in Heq. subst.
    by apply list_elem_of_In.
  - intros H. exists x. split; [by apply list_elem_of_In | apply String.eqb_refl].
Qed.

(** A path that is not a regular file is never accepted. *)
Lemma scannable_is_file cfg fs file_path :
  _is_file_scannable cfg fs file_path = true → is_Some (fs !! file_path).
Proof.
  unfold _is_file_scannable. destruct (fs !! file_path); [eauto | discriminate].
Qed.

(** A file whose suffix is [.yar] is rejected whatever the configuration. *)
Lemma yar_suffix_rejected cfg fs file_path :
  suffix file_path = ".yar" → _is_file_scannable cfg fs file_path = false.
Proof.
  intros Hs. unfold _is_file_scannable. rewrite Hs.
  destruct (fs !! file_path) as [f|]; [|done].
  repeat (case_match; try done).
Qed.

(** C10. With a non-empty allow-list, a file whose extension is in the
    allow-list and also in the block-list is rejected: being allowed does
    not save it from the block-list test that follows. *)
Theorem blocked_extension_wins_over_allowed cfg fs file_path allowed blocked :
  Config.allowed_extensions cfg = Some allowed →
  allowed ≠ [] →
  Config.blocked_extensions cfg = Some blocked →
  lower (suffix file_path) ∈ allowed →
  lower (suffix file_path) ∈ blocked →
  _is_file_scannable cfg fs file_path = false.
Proof.
  intros Ha Hne Hb Hina Hinb.
  apply str_in_true in Hina. apply str_in_true in Hinb.
  unfold _is_file_scannable.
  destruct (fs !! file_path) as [f|]; [|done].
  destruct (negb (f_readable f)); [done|].
  destruct (negb (Qle_bool _ _)); [done|].
  rewrite Ha, Hb. simpl. rewrite Hina, Hinb. simpl.
  destruct allowed as [|a l]; [done|]. simpl.
  destruct blocked as [|b l']; [by simpl in Hinb|]. done.
Qed.

Lemma blocked_extension_wins_over_allowed_witness :
  _is_file_scannable Demo.cfg_allow_and_block
    {[ "/home/user/Setup.EXE" := File "MZ" 7 true ]} "/home/user/Setup.EXE" = false.
Proof.
  apply (blocked_extension_wins_over_allowed Demo.cfg_allow_and_block _ _
           [".txt"; ".exe"] [".exe"; ".tmp"]).
  - reflexivity.
  - discriminate.
  - reflexivity.
  - vm_compute. apply list_elem_of_In. simpl. tauto.
  - vm_compute. apply list_elem_of_In. simpl. tauto.
Defined.

(** C4. A rule source file with the [.yara] extension, which the rule
    store compiles, passes the eligibility filter: the filter only turns
    away the suffixes [.yar] and [.yarac]. *)
Theorem yara_rule_source_is_accepted :
  let w := Demo.world Demo.libraries default_config (Demo.rules_disk "EVIL" "BAD") in
  fst (rglob "/srv/falcondefender/rules" ".yara" w) = Ok ["/srv/falcondefender/rules/extra.yara"]
  ∧ _is_file_scannable (config w) (disk w) "/srv/falcondefender/rules/extra.yara" = true
  ∧ _is_file_scannable (config w) (disk w) "/srv/falcondefender/rules/a.yar" = false.
Proof. vm_compute. done. Qed.

(** ** Scan state machine *)

Import ScannerAdapter.

(** [start_scan] outside [IDLE] does report an error. *)
Lemma start_scan_when_busy_reports_error path q i self :
  state self ≠ IDLE → reports_error self (start_scan path q i self).
Proof.
  intros Hs. unfold start_scan.
  destruct (state self) eqn:E; try done; simpl;
    eexists; unfold put; simpl;
    (split; [rewrite drop_app_length; apply list_elem_of_here | done]).
Qed.

(** C5, as stated, fails: [pause] and [resume] in the [IDLE] state put
    nothing on the queue and change nothing. *)
Lemma pause_and_resume_when_idle_report_nothing :
  ¬ (∀ self,
       (state self ≠ SCANNING → reports_error self (pause self))
       ∧ (state self ≠ PAUSED → reports_error self (resume self))).
Proof.
  intros H. destruct (H Demo.idle_adapter) as [Hp _].
  destruct Hp as (e & He & _); [discriminate|].
  vm_compute in He. by apply elem_of_nil in He.
Qed.

(** C5, amended. [pause] acts only in the [SCANNING] state and [resume]
    only in the [PAUSED] state, each announcing the change with an
    ["info"] event; in any other state the call leaves the adapter,
    event queue included, exactly as it was. *)
Theorem pause_and_resume_act_only_in_their_state (self : ScannerAdapter.t) :
  (state self = SCANNING →
     state (pause self) = PAUSED
     ∧ event_queue (pause self)
       = event_queue self ++ [{| kind := "info"; msg := "Scan paused" |}])
  ∧ (state self ≠ SCANNING → pause self = self)
  ∧ (state self = PAUSED →
     state (resume self) = SCANNING
     ∧ event_queue (resume self)
       = event_queue self ++ [{| kind := "info"; msg := "Scan resumed" |}])
  ∧ (state self ≠ PAUSED → resume self = self).
Proof.
  unfold pause, resume.
  destruct (state self); simpl; repeat split; intros; done.
Qed.

Lemma pause_and_resume_act_only_in_their_state_witness :
  pause Demo.idle_adapter = Demo.idle_adapter ∧ resume Demo.idle_adapter = Demo.idle_adapter
  ∧ state (pause (start_scan "/data" false false Demo.idle_adapter)) = PAUSED.
Proof.
  destruct (pause_and_resume_act_only_in_their_state Demo.idle_adapter)
    as (_ & Hp & _ & Hr).
  destruct (pause_and_resume_act_only_in_their_state
              (start_scan "/data" false false Demo.idle_adapter)) as (Hs & _).
  split; [apply Hp; discriminate|].
  split; [apply Hr; discriminate|].
  apply Hs. reflexivity.
Defined.

(** ** Reasoning about computations *)

Section Keeps.
Context (R : relation World) `{!PreOrder R}.

Lemma keeps_ret {A} (a : A) : keeps R (ret a).
Proof. intros w. reflexivity. Qed.

Lemma keeps_raise {A} e : keeps R (@raise A e).
Proof. intros w. reflexivity. Qed.

Lemma keeps_get : keeps R get.
Proof. intros w. reflexivity. Qed.

Lemma keeps_modify f : (∀ w, R w (f w)) → keeps R (modify f).
Proof. intros H w. apply H. Qed.

Lemma keeps_bind {A B} (c : M A) (k : A → M B) :
  keeps R c → (∀ a, keeps R (k a)) → keeps R (bind c k).
Proof.
  intros Hc Hk w. unfold bind. specialize (Hc w).
  destruct (c w) as [[a|e] w1]; simpl in *; [|done].
  etrans; [exact Hc | apply Hk].
Qed.

Lemma keeps_try_except {A} (c : M A) classes h :
  keeps R c → (∀ e, keeps R (h e)) → keeps R (try_except c classes h).
Proof.
  intros Hc Hh w. unfold try_except. specialize (Hc w).
  destruct (c w) as [[a|e] w1]; simpl in *; [done|].
  destruct (classes e); [|done].
  etrans; [exact Hc | apply Hh].
Qed.

Lemma keeps_for_list {A B} (xs : list A) (f : A → M B) :
  (∀ x, keeps R (f x)) → keeps R (for_list xs f).
Proof.
  intros Hf. induction xs as [|x xs IH]; simpl.
  - apply keeps_ret.
  - apply keeps_bind; [apply Hf|]. intros y.
    apply keeps_bind; [apply IH|]. intros ys. apply keeps_ret.
Qed.

Lemma keeps_for_each {A} (xs : list A) (f : A → M unit) :
  (∀ x, keeps R (f x)) → keeps R (for_each xs f).
Proof.
  intros Hf. induction xs as [|x xs IH]; simpl.
  - apply keeps_ret.
  - apply keeps_bind; [apply Hf | intros _; apply IH].
Qed.

Lemma keeps_lift {A} (o : outcome A) :
  keeps R (match o with Ok a => ret a | Raise e => raise e end).
Proof. destruct o; [apply keeps_ret | apply keeps_raise]. Qed.
End Keeps.

(** One step through the structure of a computation. *)
Ltac keeps_step :=
  match goal with
  | H : keeps ?R ?c |- keeps ?R ?c => exact H
  | |- keeps ?R (ret _) => apply (keeps_ret R)
  | |- keeps ?R (raise _) => apply (keeps_raise R)
  | |- keeps ?R get => apply (keeps_get R)
  | |- keeps ?R (bind _ _) => apply (keeps_bind R); [|intros ?]
  | |- keeps ?R (try_except _ _ _) => apply (keeps_try_except R); [|intros ?]
  | |- keeps ?R (for_list _ _) => apply (keeps_for_list R); intros ?
  | |- keeps ?R (for_each _ _) => apply (keeps_for_each R); intros ?
  | |- keeps ?R (modify _) => apply (keeps_modify R); intros ?
  | |- keeps _ (if ?b then _ else _) => destruct b
  | |- keeps _ (match ?x with _ => _ end) => destruct x
  end.

#[local] Instance same_scanner_preorder : PreOrder same_scanner.
Proof.
  split; [by intros w | intros w1 w2 w3 H1 H2; unfold same_scanner in *; congruence].
Qed.

Ltac keeps_solve :=
  repeat keeps_step; try (unfold same_scanner; simpl; done).

Lemma datetime_now_keeps_scanner : keeps same_scanner datetime_now.
Proof. unfold datetime_now. keeps_solve. Qed.

Lemma quarantine_file_keeps_scanner file_path match_info :
  keeps same_scanner (quarantine_file file_path match_info).
Proof.
  pose proof datetime_now_keeps_scanner.
  unfold quarantine_file, _generate_quarantine_path, shutil_move, sql_insert.
  keeps_solve.
Qed.

Lemma _scan_file_keeps_scanner file_path quarantine_matches :
  keeps same_scanner (_scan_file file_path quarantine_matches).
Proof.
  unfold _scan_file, handle_match.
  keeps_solve; apply quarantine_file_keeps_scanner.
Qed.


(** ** The scan session *)

Lemma try_except_all_total {A} (c : M A) (h : exn → M A) :
  (∀ e, total (h e)) → total (try_except c Exception h).
Proof.
  intros Hh w. unfold try_except.
  destruct (c w) as [[a|e] w1]; simpl; [eauto | apply Hh].
Qed.

Lemma ret_total {A} (a : A) : total (ret a).
Proof. intros w. by eexists _, _. Qed.

Lemma for_list_total {A B} (xs : list A) (f : A → M B) :
  (∀ x, total (f x)) →
  ∀ w, ∃ ys w', for_list xs f w = (Ok ys, w') ∧ length ys = length xs.
Proof.
  intros Hf. induction xs as [|x xs IH]; intros w; simpl.
  - by eexists [], w.
  - unfold bind. destruct (Hf x w) as (y & w1 & ->).
    destruct (IH w1) as (ys & w2 & -> & Hlen).
    eexists (y :: ys), w2. split; [done | simpl; congruence].
Qed.

(** [_scan_file] always returns a list: whatever is raised inside is
    caught by its [except Exception]. *)
Lemma _scan_file_total file_path quarantine_matches :
  total (_scan_file file_path quarantine_matches).
Proof.
  intros w. unfold _scan_file, bind, get.
  destruct (negb _); [apply ret_total|].
  apply try_except_all_total. intros e. apply ret_total.
Qed.

(** The closing loop of an incremental scan: the disk is only read, and
    every listed path that is still a file gets its current time. *)
Lemma remember_scan_times_run (files : list string) (w : World) :
  ∃ w', for_each files remember_scan_time w = (Ok tt, w')
    ∧ disk w' = disk w
    ∧ ∀ p, Scanner.last_scan_times (scanner w') !! p =
           match disk w !! p with
           | Some f =>
               if bool_decide (p ∈ files) then Some (f_mtime f)
               else Scanner.last_scan_times (scanner w) !! p
           | None => Scanner.last_scan_times (scanner w) !! p
           end.
Proof.
  revert w. induction files as [|x files IH]; intros w; simpl.
  - exists w. split; [done|]. split; [done|]. intros p.
    by destruct (disk w !! p).
  - unfold bind at 1. unfold remember_scan_time at 1. unfold bind, get.
    destruct (disk w !! x) as [fx|] eqn:Hx; simpl.
    + match goal with |- context [for_each files _ ?w1] =>
        destruct (IH w1) as (w' & -> & Hd & Hc) end.
      exists w'. simpl in *. split; [done|]. split; [done|].
      intros p. rewrite Hc.
      rewrite (bool_decide_ext _ _ (elem_of_cons files p x)), bool_decide_or.
      destruct (decide (p = x)) as [->|Hne].
      * rewrite Hx, lookup_insert_eq, (bool_decide_eq_true_2 (x = x)) by done.
        simpl. by destruct (bool_decide (x ∈ files)).
      * rewrite lookup_insert_ne, (bool_decide_eq_false_2 (p = x)) by done.
        done.
    + destruct (IH w) as (w' & -> & Hd & Hc).
      exists w'. split; [done|]. split; [done|].
      intros p. rewrite Hc.
      rewrite (bool_decide_ext _ _ (elem_of_cons files p x)), bool_decide_or.
      destruct (decide (p = x)) as [->|Hne].
      * by rewrite Hx.
      * by rewrite (bool_decide_eq_false_2 (p = x)) by done.
Qed.

(** What one call of [scan_path] does, in one statement: it returns a
    summary that counts every file of [files_to_scan]; the entries of
    [last_scan_times] change only in an incremental scan, and then only
    for the files of [files_to_scan] that are still on the disk. *)
Lemma scan_path_run w target_path incremental quarantine_matches :
  ∃ summary w',
    scan_path target_path incremental quarantine_matches w = (Ok summary, w')
    ∧ scanned_path summary = target_path
    ∧ total_files_scanned summary
      = length (default [] (files_to_scan w target_path incremental))
    ∧ ∀ p, Scanner.last_scan_times (scanner w') !! p =
           match disk w' !! p with
           | Some f =>
               if incremental
                  && bool_decide (p ∈ default [] (files_to_scan w target_path incremental))
               then Some (f_mtime f)
               else Scanner.last_scan_times (scanner w) !! p
           | None => Scanner.last_scan_times (scanner w) !! p
           end.
Proof.
  unfold scan_path. unfold bind at 1. unfold get at 1.
  destruct (files_to_scan w target_path incremental) as [files|]; simpl.
  - destruct (for_list_total files
                (λ file_path, _scan_file file_path quarantine_matches)
                (λ x, _scan_file_total x quarantine_matches) w)
      as (results & w1 & Hrun & Hlen).
    pose proof (keeps_for_list same_scanner files _
                  (λ x, _scan_file_keeps_scanner x quarantine_matches) w) as Hsc.
    rewrite Hrun in Hsc. unfold same_scanner in Hsc. simpl in Hsc.
    unfold bind at 1. rewrite Hrun.
    destruct incremental; simpl.
    + destruct (remember_scan_times_run files w1) as (w2 & Hloop & Hd & Hc).
      unfold bind at 1. rewrite Hloop. unfold ret.
      eexists _, w2. split; [done|]. split; [done|]. split; [done|].
      intros p. rewrite Hc, Hd, Hsc. done.
    + unfold bind, ret. eexists _, w1. split; [done|]. split; [done|].
      split; [done|]. intros p. rewrite Hsc. by destruct (disk w1 !! p).
  - unfold ret. eexists _, w. split; [done|]. split; [done|]. split; [done|].
    intros p. by destruct (disk w !! p), incremental.
Qed.

(** ** Runs of a computation, step by step *)

Lemma bind_inv {A B} (c : M A) (k : A → M B) w o w' :
  bind c k w = (o, w') →
  (∃ a w1, c w = (Ok a, w1) ∧ k a w1 = (o, w'))
  ∨ (∃ e, c w = (Raise e, w') ∧ o = Raise e).
Proof.
  unfold bind. destruct (c w) as [[a|e] w1]; intros H.
  - left. eauto.
  - right. injection H as <- <-. eauto.
Qed.

Lemma bind_ok {A B} (c : M A) (k : A → M B) w b w' :
  bind c k w = (Ok b, w') →
  ∃ a w1, c w = (Ok a, w1) ∧ k a w1 = (Ok b, w').
Proof.
  intros [H|(e & _ & ?)]%bind_inv; [exact H|done].
Qed.

Lemma try_except_inv {A} (c : M A) classes h w o w' :
  try_except c classes h w = (o, w') →
  (∃ a, c w = (Ok a, w') ∧ o = Ok a)
  ∨ (∃ e w1, c w = (Raise e, w1)
       ∧ ((classes e = true ∧ h e w1 = (o, w'))
          ∨ (classes e = false ∧ o = Raise e ∧ w' = w1))).
Proof.
  unfold try_except. destruct (c w) as [[a|e] w1]; intros H.
  - left. injection H as <- <-. eauto.
  - right. exists e, w1. split; [done|].
    destruct (classes e); [by left|]. right. by injection H as <- <-.
Qed.

(** A loop over [xs ++ ys] is the loop over [xs] followed by the loop
    over [ys]. *)
Lemma for_list_app {A B} (xs ys : list A) (f : A → M B) w rx w0 :
  for_list xs f w = (Ok rx, w0) →
  for_list (xs ++ ys) f w
  = match for_list ys f w0 with
    | (Ok ry, w1) => (Ok (rx ++ ry), w1)
    | (Raise e, w1) => (Raise e, w1)
    end.
Proof.
  revert w rx. induction xs as [|x xs IH]; intros w rx H; simpl in *.
  - injection H as <- <-. by destruct (for_list ys f w) as [[ry|e] w1].
  - apply bind_ok in H as (y & w1 & Hx & H).
    apply bind_ok in H as (rs & w2 & Hxs & [= <- <-]).
    unfold bind at 1. rewrite Hx. unfold bind at 1. rewrite (IH _ _ Hxs).
    by destruct (for_list ys f w2) as [[ry|e] w3].
Qed.

Lemma for_list_Forall2 {A B} (P : A → B → Prop) (xs : list A) (f : A → M B)
    w rs w' :
  (∀ x w a w', f x w = (Ok a, w') → P x a) →
  for_list xs f w = (Ok rs, w') → Forall2 P xs rs.
Proof.
  intros Hf. revert w rs. induction xs as [|x xs IH]; intros w rs H; simpl in *.
  - injection H as <- <-. constructor.
  - apply bind_ok in H as (y & w1 & Hx & H).
    apply bind_ok in H as (ys & w2 & Hxs & [= <- <-]).
    constructor; [by eapply Hf | by eapply IH].
Qed.

Lemma concat_Forall2 {A B} (P : A → list B → Prop) (xs : list A)
    (rs : list (list B)) (m : B) :
  Forall2 P xs rs → m ∈ concat rs → ∃ x r, x ∈ xs ∧ P x r ∧ m ∈ r.
Proof.
  induction 1 as [|x r xs rs Hxr _ IH]; simpl; [by intros ?%elem_of_nil|].
  intros [Hm|Hm]%elem_of_app.
  - exists x, r. split; [apply list_elem_of_here | done].
  - destruct (IH Hm) as (x' & r' & Hx' & HP & Hm').
    exists x', r'. split; [by apply list_elem_of_further | done].
Qed.

(** Every match that [_scan_file] returns for a file carries the path of
    that file. *)
Lemma handle_match_names_its_file file_path quarantine_matches m w d w' :
  handle_match file_path quarantine_matches m w = (Ok d, w') →
  dict_get d "file_path" = Some (PStr file_path).
Proof.
  unfold handle_match. destruct quarantine_matches.
  - intros [(a & H & [= <-])|(e & w1 & _ & [[_ [= <- <-]]|(_ & [=] & _)])]%try_except_inv;
      [|done].
    by apply bind_ok in H as (q & w1 & _ & [= <- <-]).
  - by intros [= <- <-].
Qed.

Lemma _scan_file_names_its_file file_path quarantine_matches w ms w' :
  _scan_file file_path quarantine_matches w = (Ok ms, w') →
  ∀ m, m ∈ ms → dict_get m "file_path" = Some (PStr file_path).
Proof.
  unfold _scan_file. intros H.
  apply bind_ok in H as (w0 & ? & [= <- <-] & H).
  destruct (negb _); [injection H as <- <-; by intros m ?%elem_of_nil|].
  apply try_except_inv in H
    as [(a & H & [= <-])|(e & w1 & _ & [[_ [= <- <-]]|(_ & [=] & _)])];
    [|by intros m ?%elem_of_nil].
  destruct (Scanner.rules (scanner w)) as [rules|];
    [|injection H as <- <-; by intros m ?%elem_of_nil].
  apply bind_ok in H as (yara_matches & w1 & _ & H).
  apply (for_list_Forall2 (λ _ d, dict_get d "file_path" = Some (PStr file_path)))
    in H; [|intros x w2 d w3; apply handle_match_names_its_file].
  intros m Hm. clear -H Hm.
  induction H as [|x d xs ds Hd _ IH]; [by apply elem_of_nil in Hm|].
  apply elem_of_cons in Hm as [->|Hm]; [done | by apply IH].
Qed.

(** What a session returns, in terms of the calls of [_scan_file] that
    it makes: one call per file of [files_to_scan], in that order, each
    in the world that the calls before it left; the summary counts the
    calls and joins their results. *)
Lemma scan_path_results w target_path incremental quarantine_matches :
  ∃ results w1 summary w',
    for_list (default [] (files_to_scan w target_path incremental))
             (λ file_path, _scan_file file_path quarantine_matches) w
    = (Ok results, w1)
    ∧ scan_path target_path incremental quarantine_matches w = (Ok summary, w')
    ∧ scanned_path summary = target_path
    ∧ total_files_scanned summary
      = length (default [] (files_to_scan w target_path incremental))
    ∧ matches summary = concat results.
Proof.
  unfold scan_path. unfold bind at 1. unfold get at 1.
  destruct (files_to_scan w target_path incremental) as [files|]; simpl.
  - destruct (for_list_total files
                (λ file_path, _scan_file file_path quarantine_matches)
                (λ x, _scan_file_total x quarantine_matches) w)
      as (results & w1 & Hrun & Hlen).
    unfold bind at 1. rewrite Hrun.
    destruct incremental; simpl.
    + destruct (remember_scan_times_run files w1) as (w2 & Hloop & _).
      unfold bind at 1. rewrite Hloop. unfold ret.
      by eexists results, w1, _, w2.
    + unfold bind, ret. by eexists results, w1, _, w1.
  - unfold ret. by eexists [], w, _, w.
Qed.

Lemma elem_of_List_filter {A} (P : A → bool) (l : list A) (x : A) :
  x ∈ List.filter P l ↔ x ∈ l ∧ P x = true.
Proof. by rewrite !list_elem_of_In, filter_In. Qed.

(** C9. In an incremental scan of a directory, a file of the walk whose
    modification time is at most its entry in [last_scan_times] is left
    out of the files considered, and a file without an entry is never
    left out.  The files considered are the ones the session works on:
    [_scan_file] is called on each of them, in their order, and on no
    other file; the summary counts these calls and lists the matches they
    returned, so every match in it names a considered file and a file
    that was left out contributes nothing. *)
Theorem incremental_scan_skips_only_unchanged_files
    w target_path quarantine_matches :
  FS.is_dir (disk w) target_path = true →
  ∃ considered results w1 summary w',
    files_to_scan w target_path true = Some considered
    ∧ for_list considered
               (λ file_path, _scan_file file_path quarantine_matches) w
      = (Ok results, w1)
    ∧ scan_path target_path true quarantine_matches w = (Ok summary, w')
    ∧ total_files_scanned summary = length considered
    ∧ matches summary = concat results
    ∧ (∀ m, m ∈ matches summary →
         ∃ file_path, file_path ∈ considered
                      ∧ dict_get m "file_path" = Some (PStr file_path))
    ∧ ∀ file_path f,
        file_path ∈ os_walk (disk w) target_path →
        disk w !! file_path = Some f →
        (∀ last, Scanner.last_scan_times (scanner w) !! file_path = Some last →
                 (f_mtime f ≤ last)%Z → file_path ∉ considered)
        ∧ (∀ last, Scanner.last_scan_times (scanner w) !! file_path = Some last →
                   (last < f_mtime f)%Z → file_path ∈ considered)
        ∧ (Scanner.last_scan_times (scanner w) !! file_path = None →
           file_path ∈ considered).
Proof.
  intros Hdir.
  assert (Hfile : FS.is_file (disk w) target_path = false).
  { unfold FS.is_dir in Hdir. by destruct (FS.is_file _ _). }
  destruct (scan_path_results w target_path true quarantine_matches)
    as (results & w1 & summary & w' & Hcalls & Hrun & _ & Htotal & Hmatches).
  unfold files_to_scan in *. rewrite Hfile, Hdir in *. simpl in *.
  eexists _, results, w1, summary, w'.
  split; [done|]. split; [done|]. split; [done|]. split; [done|].
  split; [done|]. split.
  { intros m Hm. rewrite Hmatches in Hm.
    apply (for_list_Forall2
             (λ file_path ms,
                ∀ m, m ∈ ms → dict_get m "file_path" = Some (PStr file_path)))
      in Hcalls; [|intros x w2 ms w3; apply _scan_file_names_its_file].
    destruct (concat_Forall2 _ _ _ _ Hcalls Hm) as (p & ms & Hp & Hms & Hin).
    exists p. split; [done | by apply Hms]. }
  intros file_path f Hwalk Hf.
  split; [|split].
  - intros last Hlast Hle. rewrite elem_of_List_filter. intros [_ Hkeep].
    unfold unchanged_since_last_scan in Hkeep. rewrite Hlast, Hf in Hkeep.
    apply negb_true_iff, Z.leb_gt in Hkeep. lia.
  - intros last Hlast Hlt. rewrite elem_of_List_filter. split; [done|].
    unfold unchanged_since_last_scan. rewrite Hlast, Hf.
    by apply negb_true_iff, Z.leb_gt.
  - intros Hnone. rewrite elem_of_List_filter. split; [done|].
    unfold unchanged_since_last_scan. by rewrite Hnone.
Qed.


(** A target that is itself a file is taken as it is: the incremental
    test is applied to the files of a walk only. *)
Lemma file_target_is_never_skipped w target_path incremental :
  FS.is_file (disk w) target_path = true →
  files_to_scan w target_path incremental = Some [target_path].
Proof. intros H. unfold files_to_scan. by rewrite H. Qed.

Lemma incremental_scan_skips_only_unchanged_files_witness :
  ∃ considered summary w',
    files_to_scan Demo.rescanned_world "/data" true = Some considered
    ∧ scan_path "/data" true false Demo.rescanned_world = (Ok summary, w')
    ∧ total_files_scanned summary = length considered
    ∧ ("/data/clean.txt" ∉ considered)
    ∧ ("/data/malicious.bin" ∈ considered)
    ∧ ("/data/temp.tmp" ∈ considered).
Proof.
  destruct (incremental_scan_skips_only_unchanged_files
              Demo.rescanned_world "/data" false)
    as (considered & results & w1 & summary & w' & Hc & _ & Hrun & Hlen & _ & _ & H);
    [by vm_compute|].
  exists considered, summary, w'.
  split; [done|]. split; [done|]. split; [done|].
  split; [|split].
  - destruct (H "/data/clean.txt" (File "This is a clean file." 11 true))
      as (Hskip & _ & _); [by (vm_compute; repeat constructor) | by vm_compute |].
    apply (Hskip 11%Z); [by vm_compute | simpl; lia].
  - destruct (H "/data/malicious.bin" (File "some binary data with EVIL" 10 true))
      as (_ & Hkeep & _); [by (vm_compute; repeat constructor) | by vm_compute |].
    apply (Hkeep 9%Z); [by vm_compute | simpl; lia].
  - destruct (H "/data/temp.tmp" (File "This is a temporary file." 12 true))
      as (_ & _ & Hnew); [by (vm_compute; repeat constructor) | by vm_compute |].
    apply Hnew. by vm_compute.
Defined.

(** C3, as stated, fails: in an incremental scan a file that the
    eligibility filter turns away still enters [last_scan_times]. *)
Lemma rejected_file_enters_the_cache : ¬ cache_follows_scanned_files.
Proof.
  intros H.
  destruct (H Demo.quiet_world "/data" true "/data/temp.tmp") as [Honly _].
  destruct Honly as [_ Hscannable].
  - by vm_compute.
  - by vm_compute in Hscannable.
Qed.

(** C3, amended. At the end of a scan the entries of [last_scan_times]
    are changed only when the scan is incremental, and then exactly for
    the files of [files_to_scan] (the target file, or the files of the
    walk that the incremental test did not skip, whether or not the
    eligibility filter let them through) that are still on the disk:
    each of these gets its current modification time; every other entry
    is as it was. *)
Theorem cache_updated_for_files_to_scan_still_on_disk
    w target_path incremental quarantine_matches :
  ∃ summary w',
    scan_path target_path incremental quarantine_matches w = (Ok summary, w')
    ∧ ∀ file_path,
        Scanner.last_scan_times (scanner w') !! file_path =
        match disk w' !! file_path with
        | Some f =>
            if incremental
               && bool_decide
                    (file_path ∈ default [] (files_to_scan w target_path incremental))
            then Some (f_mtime f)
            else Scanner.last_scan_times (scanner w) !! file_path
        | None => Scanner.last_scan_times (scanner w) !! file_path
        end.
Proof.
  destruct (scan_path_run w target_path incremental quarantine_matches)
    as (summary & w' & Hrun & _ & _ & Hcache).
  by exists summary, w'.
Qed.

(** Matching that raises leaves no trace: [_scan_file] answers with the
    empty list and the world is as before. *)
Lemma _scan_file_when_match_raises w file_path quarantine_matches :
  match_raises w file_path →
  _scan_file file_path quarantine_matches w = (Ok [], w).
Proof.
  intros (rules & f & e & Hrules & Hf & Hok & Hraise).
  unfold _scan_file, bind, get, try_except. rewrite Hok, Hrules, Hf, Hraise.
  reflexivity.
Qed.

(** C7, as stated, fails: the result of a session whose only file timed
    out is the result of a session in which that file matched nothing,
    so no list of failed files can be read off it. *)
Lemma summary_does_not_list_failed_files : ¬ summary_lists_failed_files.
Proof.
  intros (errors & H).
  set (summary := {| scanned_path := "/data/clean.txt";
                     total_files_scanned := 1; matches := [] |}).
  pose proof (H Demo.slow_world "/data/clean.txt" false summary
                ltac:(by vm_compute) "/data/clean.txt") as Hslow.
  pose proof (H Demo.quiet_world "/data/clean.txt" false summary
                ltac:(by vm_compute) "/data/clean.txt") as Hquiet.
  assert (Hin : "/data/clean.txt" ∈ errors summary).
  { apply Hslow. split; [by (vm_compute; repeat constructor)|].
    exists Demo.rules_timing_out, (File "This is a clean file." 11 true),
           YaraTimeoutError.
    by vm_compute. }
  apply Hquiet in Hin as [_ (rules & f & e & Hrules & _ & _ & Hraise)].
  vm_compute in Hrules. injection Hrules as <-. discriminate Hraise.
Qed.

(** C7, amended. An exception raised while a file is matched (a time-out
    included) is caught inside [_scan_file] and leaves no entry anywhere,
    and the session goes on.  The session calls [_scan_file] on every file
    of [files_to_scan], in their order, and returns a summary that counts
    these calls and joins their results.  When the matching of one of the
    files raises, that call answers with no matches and changes nothing,
    and the files after it are scanned from the very world the files
    before it left: the results of the session are those of the files
    before, nothing for the failed file, and those of the files after.
    The summary has no list of errors. *)
Theorem matching_errors_do_not_abort_the_session
    w target_path incremental quarantine_matches :
  ∃ results w1 summary w',
    for_list (default [] (files_to_scan w target_path incremental))
             (λ p, _scan_file p quarantine_matches) w
    = (Ok results, w1)
    ∧ scan_path target_path incremental quarantine_matches w = (Ok summary, w')
    ∧ scanned_path summary = target_path
    ∧ total_files_scanned summary
      = length (default [] (files_to_scan w target_path incremental))
    ∧ matches summary = concat results
    ∧ ∀ before file_path after results_before w0,
        default [] (files_to_scan w target_path incremental)
        = before ++ file_path :: after →
        for_list before (λ p, _scan_file p quarantine_matches) w
        = (Ok results_before, w0) →
        match_raises w0 file_path →
        ∃ results_after,
          for_list after (λ p, _scan_file p quarantine_matches) w0
          = (Ok results_after, w1)
          ∧ results = results_before ++ [] :: results_after.
Proof.
  destruct (scan_path_results w target_path incremental quarantine_matches)
    as (results & w1 & summary & w' & Hcalls & Hrun & Hpath & Htotal & Hmatches).
  exists results, w1, summary, w'.
  split; [done|]. split; [done|]. split; [done|]. split; [done|].
  split; [done|].
  intros before file_path after results_before w0 Hsplit Hbefore Hraise.
  rewrite Hsplit, (for_list_app _ _ _ _ _ _ Hbefore) in Hcalls.
  simpl in Hcalls. unfold bind at 1 in Hcalls.
  rewrite (_scan_file_when_match_raises _ _ _ Hraise) in Hcalls.
  unfold bind at 1 in Hcalls.
  destruct (for_list after (λ p, _scan_file p quarantine_matches) w0)
    as [[results_after|e] w2]; simpl in Hcalls; [|done].
  injection Hcalls as <- <-. by exists results_after.
Qed.

Lemma matching_errors_do_not_abort_the_session_witness :
  ∃ summary w',
    scan_path "/data" false false Demo.slow_world = (Ok summary, w')
    ∧ total_files_scanned summary = 3
    ∧ matches summary = [].
Proof.
  destruct (matching_errors_do_not_abort_the_session
              Demo.slow_world "/data" false false)
    as (results & w1 & summary & w' & _ & Hrun & _ & Htotal & Hmatches & H).
  exists summary, w'. split; [exact Hrun|].
  split; [rewrite Htotal; vm_compute; reflexivity|].
  destruct (H [] "/data/clean.txt" ["/data/malicious.bin"; "/data/temp.tmp"]
              [] Demo.slow_world) as (after1 & Hafter1 & ->).
  - vm_compute; reflexivity.
  - reflexivity.
  - exists Demo.rules_timing_out, (File "This is a clean file." 11 true),
           YaraTimeoutError.
    vm_compute. repeat split; reflexivity.
  - apply (f_equal fst) in Hafter1. vm_compute in Hafter1.
    injection Hafter1 as <-. rewrite Hmatches. reflexivity.
Defined.

(** ** Containment store *)

(** C1. The guard of [delete_quarantined_file] looks at [deleted_at]
    only: after a file was quarantined and restored, deleting the same
    record succeeds and leaves a row with both [restored_at] and
    [deleted_at] set. *)
Theorem delete_after_restore_succeeds :
  let session :=
    quarantine_file "/data/malicious.bin" [("rule_name", PStr "EVIL")] ;;;
    restored <- restore_file 1 ;;
    deleted <- delete_quarantined_file 1 ;;
    ret (restored, deleted) in
  (session Demo.quiet_world).1 = Ok (true, true)
  ∧ List.map (λ r, (id r, restored_at r, deleted_at r))
             (rows (quarantine_db (session Demo.quiet_world).2))
    = [(1%Z, Some "2023-11-14T22:13:20.000002", Some "2023-11-14T22:13:20.000003")].
Proof. by vm_compute. Qed.

(** Every id in the table is below the next id. *)
Lemma id_below_next_id (db : Database) (r : Row) :
  r ∈ rows db → (id r < next_id db)%Z.
Proof.
  unfold next_id. generalize (sequence db). induction (rows db) as [|r' rs IH];
    intros s Hin; [by apply elem_of_nil in Hin|].
  apply elem_of_cons in Hin as [->|Hin]; simpl.
  - lia.
  - specialize (IH s Hin). lia.
Qed.



Lemma path_exists_false fs p :
  FS.path_exists fs p = false → fs !! p = None ∧ FS.is_dir fs p = false.
Proof.
  unfold FS.path_exists, FS.is_file. intros H.
  apply orb_false_iff in H as [Hfile Hdir]. split; [|done].
  apply bool_decide_eq_false in Hfile.
  destruct (fs !! p) eqn:E; [|done]. destruct Hfile. eauto.
Qed.


(** *** Every outcome of the operations of the store *)

(** The three ways in which [quarantine_file] can end. *)
Lemma quarantine_file_outcome file_path match_info w o w1 :
  quarantine_file file_path match_info w = (o, w1) →
  let storage_path :=
    joinpath (Config.quarantine_dir (config w))
             (name file_path ++ "_" ++ strftime_YmdHMSf (clock w (ticks w)))%string in
  (o = Ok None ∧ w1 = w ∧ disk w !! file_path = None)
  ∨ (∃ f record,
       disk w !! file_path = Some f
       ∧ o = Ok (Some storage_path)
       ∧ disk w1
         = <[if FS.is_dir (disk w) storage_path
             then joinpath storage_path (name file_path)
             else storage_path := f]> (delete file_path (disk w))
       ∧ bindable match_info
       ∧ (∀ r, r ∈ rows (quarantine_db w) → quarantine_path r ≠ storage_path)
       ∧ rows (quarantine_db w1) = rows (quarantine_db w) ++ [record]
       ∧ id record = next_id (quarantine_db w)
       ∧ original_path record = file_path
       ∧ quarantine_path record = storage_path
       ∧ restored_at record = None ∧ deleted_at record = None)
  ∨ (∃ f, disk w !! file_path = Some f
       ∧ o = Raise AttributeError
       ∧ quarantine_db w1 = quarantine_db w
       ∧ ((disk w1 = disk w ∧ FS.is_dir (disk w) storage_path = true)
          ∨ (disk w1
             = <[if FS.is_dir (disk w) storage_path
                 then joinpath storage_path (name file_path)
                 else storage_path := f]> (delete file_path (disk w))
             ∧ (¬ bindable match_info
                ∨ ∃ r, r ∈ rows (quarantine_db w)
                       ∧ quarantine_path r = storage_path)))).
Proof.
  intros H. cbv zeta.
  unfold quarantine_file, _generate_quarantine_path, datetime_now, shutil_move,
    sql_insert, try_except, bind, get, modify, ret, raise, FS.is_file in H.
  simpl in H.
  destruct (disk w !! file_path) as [f|] eqn:Hf.
  2:{ rewrite bool_decide_eq_false_2 in H by (by intros [? ?]).
      simpl in H. left. by simplify_eq. }
  rewrite bool_decide_eq_true_2 in H by eauto. simpl in H.
  remember (joinpath (Config.quarantine_dir (config w))
              (name file_path ++ "_" ++ strftime_YmdHMSf (clock w (ticks w)))%string)
    as storage_path eqn:Hsp in *.
  clear Hsp.
  destruct (FS.is_dir (disk w) storage_path) eqn:Hdir.
  - destruct (FS.path_exists (disk w) (joinpath storage_path (name file_path))) eqn:Hex;
      simpl in H.
    + right; right. exists f. simplify_eq. simpl.
      split; [done|]. split; [done|]. split; [done|]. by left.
    + rewrite Hf in H. simpl in H.
      destruct (sqlite_bind (default PNone (dict_get match_info "file_hash")))
        as [e1|] eqn:Hb1; simpl in H.
      { right; right. exists f. simplify_eq. simpl.
        split; [done|]. split; [done|]. split; [done|].
        right. split; [done|]. left. intros [? _]. congruence. }
      destruct (sqlite_bind (default (PStr "Unknown") (dict_get match_info "rule_name")))
        as [e2|] eqn:Hb2; simpl in H.
      { right; right. exists f. simplify_eq. simpl.
        split; [done|]. split; [done|]. split; [done|].
        right. split; [done|]. left. intros [_ ?]. congruence. }
      destruct (existsb _ _) eqn:Hdup; simpl in H; simplify_eq.
      * right; right. exists f. split; [done|]. split; [done|]. split; [done|].
        right. split; [done|]. right.
        apply existsb_exists in Hdup as (r & Hr & Heq).
        exists r. split; [by apply list_elem_of_In | by apply String.eqb_eq].
      * right; left. eexists f, _. split; [done|]. split; [done|].
        split; [done|]. split; [done|].
        split; [|simpl; eauto 10].
        intros r Hr Heq. apply list_elem_of_In in Hr.
        assert (existsb (λ r, quarantine_path r =? storage_path)%string
                        (rows (quarantine_db w)) = true) as Hc.
        { apply existsb_exists. exists r. split; [done|]. by apply String.eqb_eq. }
        congruence.
  - simpl in H. rewrite Hf in H. simpl in H.
    destruct (sqlite_bind (default PNone (dict_get match_info "file_hash")))
      as [e1|] eqn:Hb1; simpl in H.
    { right; right. exists f. simplify_eq. simpl.
      split; [done|]. split; [done|]. split; [done|].
      right. split; [done|]. left. intros [? _]. congruence. }
    destruct (sqlite_bind (default (PStr "Unknown") (dict_get match_info "rule_name")))
      as [e2|] eqn:Hb2; simpl in H.
    { right; right. exists f. simplify_eq. simpl.
      split; [done|]. split; [done|]. split; [done|].
      right. split; [done|]. left. intros [_ ?]. congruence. }
    destruct (existsb _ _) eqn:Hdup; simpl in H; simplify_eq.
    + right; right. exists f. split; [done|]. split; [done|]. split; [done|].
      right. split; [done|]. right.
      apply existsb_exists in Hdup as (r & Hr & Heq).
      exists r. split; [by apply list_elem_of_In | by apply String.eqb_eq].
    + right; left. eexists f, _. split; [done|]. split; [done|].
      split; [done|]. split; [done|].
      split; [|simpl; eauto 10].
      intros r Hr Heq. apply list_elem_of_In in Hr.
      assert (existsb (λ r, quarantine_path r =? storage_path)%string
                      (rows (quarantine_db w)) = true) as Hc.
      { apply existsb_exists. exists r. split; [done|]. by apply String.eqb_eq. }
      congruence.
Qed.

(** [mkdir_parents] changes nothing; it returns when the path can be a
    directory and raises otherwise. *)
Lemma mkdir_parents_run path w :
  (mkdir_parents path w = (Ok tt, w) ∧ can_be_directory (disk w) path)
  ∨ (∃ e, mkdir_parents path w = (Raise e, w)
          ∧ ¬ can_be_directory (disk w) path).
Proof.
  unfold mkdir_parents, can_be_directory, bind, get, ret, raise.
  destruct (FS.is_file (disk w) path).
  - right. eexists. split; [done|]. by intros [? _].
  - destruct (FS.under_a_file (disk w) path).
    + right. eexists. split; [done|]. by intros [_ ?].
    + by left.
Qed.

(** Every way in which [restore_file] can end: it refuses and changes
    nothing; or it moves the quarantined file to the unoccupied original
    path and stamps the rows of that id; or the directory of the original
    path cannot be made, and the exception of [mkdir] leaves the call with
    nothing changed. *)
Lemma restore_file_outcome record_id w o w1 :
  restore_file record_id w = (o, w1) →
  (o = Ok false ∧ w1 = w)
  ∨ (∃ record f t,
       List.find (λ r, (id r =? record_id)%Z && is_null (restored_at r))
                 (rows (quarantine_db w)) = Some record
       ∧ disk w !! quarantine_path record = Some f
       ∧ FS.path_exists (disk w) (original_path record) = false
       ∧ o = Ok true
       ∧ disk w1 = <[original_path record := f]> (delete (quarantine_path record) (disk w))
       ∧ rows (quarantine_db w1)
         = List.map (λ r, if (id r =? record_id)%Z then set_restored_at t r else r)
                    (rows (quarantine_db w)))
  ∨ (∃ record e,
       List.find (λ r, (id r =? record_id)%Z && is_null (restored_at r))
                 (rows (quarantine_db w)) = Some record
       ∧ FS.path_exists (disk w) (original_path record) = false
       ∧ ¬ can_be_directory (disk w) (parent (original_path record))
       ∧ o = Raise e ∧ w1 = w).
Proof.
  unfold restore_file. intros H.
  apply bind_inv in H as [(found & w0 & Hfetch & H)|(? & [=] & _)].
  unfold sql_fetchone, bind, get, ret in Hfetch. injection Hfetch as <- <-.
  destruct (List.find _ (rows (quarantine_db w))) as [record|] eqn:Hfind;
    [|left; by injection H as <- <-].
  apply bind_inv in H as [(? & ? & [= <- <-] & H)|(? & [=] & _)].
  unfold FS.is_file in H.
  destruct (disk w !! quarantine_path record) as [f|] eqn:Hf.
  2:{ rewrite bool_decide_eq_false_2 in H by (by intros [? ?]).
      left. by injection H as <- <-. }
  rewrite bool_decide_eq_true_2 in H by eauto. simpl in H.
  destruct (FS.path_exists (disk w) (original_path record)) eqn:Hex;
    [left; by injection H as <- <-|].
  pose proof (path_exists_false _ _ Hex) as [_ Hnodir].
  unfold try_except in H.
  destruct (mkdir_parents_run (parent (original_path record)) w)
    as [[Hmk Hcan]|(e & Hmk & Hcannot)].
  - unfold bind at 1 in H. rewrite Hmk in H.
    unfold shutil_move, sql_update, datetime_now, bind, get, modify, ret, raise in H.
    rewrite Hnodir in H. simpl in H. rewrite Hf in H. simpl in H.
    right; left. exists record, f. eexists. simplify_eq. simpl.
    split; [done|]. split; [done|]. split; [done|]. split; [done|]. eauto.
  - unfold bind at 1 in H. rewrite Hmk in H.
    right; right. exists record, e.
    assert (He : (shutil_Error e || sqlite3_Error e) = false).
    { unfold mkdir_parents, bind, get, raise, ret in Hmk.
      destruct (FS.is_file (disk w) _); [by injection Hmk as <-|].
      destruct (FS.under_a_file (disk w) _); [by injection Hmk as <-|done]. }
    rewrite He in H. by injection H as <- <-.
Qed.

(** Every way in which [delete_quarantined_file] can end. *)
Lemma delete_quarantined_file_outcome record_id w o w1 :
  delete_quarantined_file record_id w = (o, w1) →
  (o = Ok false ∧ w1 = w
   ∧ List.find (λ r, (id r =? record_id)%Z && is_null (deleted_at r))
               (rows (quarantine_db w)) = None)
  ∨ (∃ record t,
       List.find (λ r, (id r =? record_id)%Z && is_null (deleted_at r))
                 (rows (quarantine_db w)) = Some record
       ∧ o = Ok true
       ∧ disk w1 = delete (quarantine_path record) (disk w)
       ∧ rows (quarantine_db w1)
         = List.map (λ r, if (id r =? record_id)%Z then set_deleted_at t r else r)
                    (rows (quarantine_db w))).
Proof.
  unfold delete_quarantined_file, sql_fetchone, sql_update, datetime_now,
    os_remove, try_except, bind, get, modify, ret, raise, FS.is_file.
  intros H.
  destruct (List.find _ (rows (quarantine_db w))) as [record|] eqn:Hfind;
    [|left; by simplify_eq].
  right. exists record.
  destruct (disk w !! quarantine_path record) as [f|] eqn:Hf.
  - rewrite bool_decide_eq_true_2 in H by eauto. simpl in H.
    rewrite Hf in H. simpl in H. eexists. simplify_eq. simpl. eauto.
  - rewrite bool_decide_eq_false_2 in H by (by intros [? ?]). simpl in H.
    eexists. simplify_eq. simpl.
    split; [done|]. split; [done|]. split; [|done].
    symmetry. by apply delete_id.
Qed.

(** *** What the guards of the store do achieve *)

Lemma find_map_none {A} (P : A → bool) (g : A → A) (l : list A) :
  (∀ x, P (g x) = false) → List.find P (List.map g l) = None.
Proof.
  intros H. induction l as [|x l IH]; simpl; [done|]. by rewrite H.
Qed.

(** A successful [restore_file] stamps [restored_at] on the rows with the
    given id and leaves the rest of the table as it was. *)
Lemma restore_file_success record_id w w1 :
  restore_file record_id w = (Ok true, w1) →
  ∃ t, rows (quarantine_db w1)
       = List.map (λ r, if (id r =? record_id)%Z then set_restored_at t r else r)
                  (rows (quarantine_db w)).
Proof.
  unfold restore_file, sql_fetchone, sql_update, mkdir_parents, datetime_now,
    shutil_move, try_except, bind, get, modify, ret, raise.
  intros H.
  repeat (case_match; simplify_eq/=); eauto.
Qed.

(** A successful [delete_quarantined_file] stamps [deleted_at] likewise. *)
Lemma delete_quarantined_file_success record_id w w1 :
  delete_quarantined_file record_id w = (Ok true, w1) →
  ∃ t, rows (quarantine_db w1)
       = List.map (λ r, if (id r =? record_id)%Z then set_deleted_at t r else r)
                  (rows (quarantine_db w)).
Proof.
  unfold delete_quarantined_file, sql_fetchone, sql_update, datetime_now,
    os_remove, try_except, bind, get, modify, ret, raise.
  intros H.
  repeat (case_match; simplify_eq/=); eauto.
Qed.

(** Restoring a record that was just restored fails and changes nothing. *)
Lemma second_restore_fails record_id w w1 :
  restore_file record_id w = (Ok true, w1) →
  restore_file record_id w1 = (Ok false, w1).
Proof.
  intros [t Hrows]%restore_file_success.
  unfold restore_file, sql_fetchone, bind, get, ret. rewrite Hrows.
  rewrite find_map_none; [done|].
  intros r. destruct (id r =? record_id)%Z eqn:E; simpl; [by rewrite E|].
  by rewrite E.
Qed.

(** Deleting a record that was just deleted fails and changes nothing. *)
Lemma second_delete_fails record_id w w1 :
  delete_quarantined_file record_id w = (Ok true, w1) →
  delete_quarantined_file record_id w1 = (Ok false, w1).
Proof.
  intros [t Hrows]%delete_quarantined_file_success.
  unfold delete_quarantined_file, sql_fetchone, bind, get, ret. rewrite Hrows.
  rewrite find_map_none; [done|].
  intros r. destruct (id r =? record_id)%Z eqn:E; simpl; [by rewrite E|].
  by rewrite E.
Qed.

(** A successful [restore_file] found a row with the given id. *)
Lemma restore_file_success_row record_id w w1 :
  restore_file record_id w = (Ok true, w1) →
  ∃ record, record ∈ rows (quarantine_db w) ∧ id record = record_id.
Proof.
  unfold restore_file, sql_fetchone, bind, get, ret. intros H.
  destruct (List.find _ (rows (quarantine_db w))) as [record|] eqn:Hfind;
    [|simplify_eq].
  apply find_some in Hfind as [Hin Hp]. exists record.
  split; [by apply list_elem_of_In|].
  apply andb_true_iff in Hp as [Hid _]. by apply Z.eqb_eq.
Qed.

(** Restore followed by delete, for every record: once [restore_file]
    has succeeded on a record that was not deleted,
    [delete_quarantined_file] on the same id succeeds too, and every row
    with that id then has both [restored_at] and [deleted_at] set. *)
Lemma restored_record_can_still_be_deleted record_id w w1 :
  restore_file record_id w = (Ok true, w1) →
  (∀ r, r ∈ rows (quarantine_db w) → id r = record_id → deleted_at r = None) →
  ∃ w2,
    delete_quarantined_file record_id w1 = (Ok true, w2)
    ∧ ∀ r, r ∈ rows (quarantine_db w2) → id r = record_id →
           is_Some (restored_at r) ∧ is_Some (deleted_at r).
Proof.
  intros Hrestore Hactive.
  destruct (restore_file_success_row _ _ _ Hrestore) as (record & Hin & Hid).
  destruct (restore_file_success _ _ _ Hrestore) as [t Hrows].
  set (P := λ r : Row, (id r =? record_id)%Z && is_null (deleted_at r)).
  assert (Hfound : ∃ r', List.find P (rows (quarantine_db w1)) = Some r').
  { destruct (List.find P (rows (quarantine_db w1))) as [r'|] eqn:Hfind; [eauto|].
    exfalso.
    pose proof (find_none _ _ Hfind
                  (if (id record =? record_id)%Z then set_restored_at t record else record))
      as Hnone.
    rewrite Hrows in Hnone.
    assert (Hp : P (if (id record =? record_id)%Z
                    then set_restored_at t record else record) = false).
    { apply Hnone. apply in_map_iff. exists record.
      split; [done | by apply list_elem_of_In]. }
    apply Z.eqb_eq in Hid as Hid'. rewrite Hid' in Hp. unfold P in Hp. simpl in Hp.
    rewrite Hid', (Hactive record Hin Hid) in Hp. discriminate. }
  destruct Hfound as [r' Hfind].
  assert (Hdel : ∃ w2 t',
            delete_quarantined_file record_id w1 = (Ok true, w2)
            ∧ rows (quarantine_db w2)
              = List.map (λ r, if (id r =? record_id)%Z then set_deleted_at t' r else r)
                         (rows (quarantine_db w1))).
  { unfold delete_quarantined_file, sql_fetchone, sql_update, datetime_now,
      os_remove, try_except, bind, get, modify, ret, raise, FS.is_file.
    fold P. rewrite Hfind.
    destruct (bool_decide (is_Some (disk w1 !! quarantine_path r'))) eqn:Hfile.
    - apply bool_decide_eq_true in Hfile as [f Hf]. rewrite Hf. simpl. eauto.
    - simpl. eauto. }
  destruct Hdel as (w2 & t' & Hdelete & Hrows2).
  exists w2. split; [done|].
  intros r Hr Hrid. rewrite Hrows2, Hrows in Hr.
  apply list_elem_of_In, in_map_iff in Hr as (r1 & <- & Hr1).
  apply in_map_iff in Hr1 as (r0 & <- & _).
  destruct (id r0 =? record_id)%Z eqn:E0; simpl in *.
  - rewrite E0. simpl. eauto.
  - rewrite E0 in *. apply Z.eqb_neq in E0. done.
Qed.


(** The same reading fails where the metadata of the match holds a
    value that cannot be bound, here a list as [rule_name]: the file is
    moved and the insert raises. *)
Lemma round_trip_fails_on_unbindable_metadata : ¬ round_trip_for_every_file.
Proof.
  intros H.
  destruct (H Demo.quiet_world "/data/malicious.bin"
              (File "some binary data with EVIL" 10 true)
              [("rule_name", PList [PStr "EVIL"; PStr "BAD"])])
    as (storage_path & w1 & record & Hq & _); [vm_compute; reflexivity|].
  apply (f_equal fst) in Hq. vm_compute in Hq. discriminate Hq.
Qed.



(** ** Rule store *)

(** C2. The digest is fed from the [.yar] files alone: the text of a
    [.yara] source does not reach it, and a directory that holds only
    [.yara] sources gets the digest of an empty directory although
    [_compile_rules] finds a rule file in it. *)
Theorem checksum_ignores_yara_sources (rt : Runtime) (yar_text text1 text2 : string) :
  let w text := Demo.world rt default_config (Demo.rules_disk yar_text text) in
  let only_yara :=
    Demo.world rt default_config
      {[ "/srv/falcondefender/rules/extra.yara" := File text1 2 true ]} in
  (_calculate_rules_checksum (w text1)).1 = Ok (md5_hexdigest rt yar_text)
  ∧ (_calculate_rules_checksum (w text2)).1 = Ok (md5_hexdigest rt yar_text)
  ∧ (_calculate_rules_checksum only_yara).1 = Ok ""
  ∧ (rglob "/srv/falcondefender/rules" ".yara" only_yara).1
    = Ok ["/srv/falcondefender/rules/extra.yara"].
Proof. by vm_compute. Qed.

Lemma hasher_update_all_keeps_scanner hasher files :
  keeps same_scanner (hasher_update_all hasher files).
Proof.
  revert hasher. induction files as [|file_path rest IH]; intros hasher; simpl.
  - apply keeps_ret, _.
  - unfold read_file. keeps_solve; apply IH.
Qed.

(** Reloading the rules never touches the scanner object. *)
Lemma check_for_updates_and_reload_keeps_scanner :
  keeps same_scanner check_for_updates_and_reload.
Proof.
  pose proof datetime_now_keeps_scanner.
  unfold check_for_updates_and_reload, load_rules, _calculate_rules_checksum,
    _compile_rules, _save_compiled_rules, yara_compile_filepaths,
    yara_load_path, unlink_if_exists, set_rules, write_file, read_file,
    os_remove, rglob, mkdir_parents.
  keeps_solve; apply hasher_update_all_keeps_scanner.
Qed.

(** C6. After [check_for_updates_and_reload] has recompiled and
    returned [True], the scanner still matches with the rules it copied
    out of the manager when it was built: a document that the manager's
    new rules hit is scanned without a match. *)
Theorem scanner_keeps_the_rules_of_its_construction :
  let w0 := (Demo.boot (Demo.world Demo.libraries Demo.cfg Demo.office_disk)).2 in
  let w1 := Demo.update_rule_file w0 in
  let w2 := (check_for_updates_and_reload w1).2 in
  (check_for_updates_and_reload w1).1 = Ok true
  ∧ Demo.active_rules_hits w0 "BAD things" = Some []
  ∧ Demo.active_rules_hits w2 "BAD things" = Some ["BAD"]
  ∧ (scan_path "/data/report.txt" false false w2).1
    = Ok {| scanned_path := "/data/report.txt";
            total_files_scanned := 1; matches := [] |}
  ∧ Scanner.rules (scanner w2) = Scanner.rules (scanner w0).
Proof.
  split; [by vm_compute|]. split; [by vm_compute|].
  split; [by vm_compute|]. split; [by vm_compute|].
  apply (f_equal Scanner.rules).
  exact (check_for_updates_and_reload_keeps_scanner
           (Demo.update_rule_file
              (Demo.boot (Demo.world Demo.libraries Demo.cfg Demo.office_disk)).2)).
Qed.

(** * Further properties *)

(** ** Containment store: what the operations guarantee *)

Lemma in_rows_id_below_next_id (db : Database) (r : Row) :
  r ∈ rows db → id r ≠ next_id db.
Proof. intros H%id_below_next_id. lia. Qed.

(** The rows after a call: appended to, or stamped, never anything else. *)
Lemma after_store_call_rows c w :
  rows (quarantine_db (after_store_call c w)) = rows (quarantine_db w)
  ∨ (∃ record,
       rows (quarantine_db (after_store_call c w)) = rows (quarantine_db w) ++ [record]
       ∧ id record = next_id (quarantine_db w)
       ∧ (∀ r, r ∈ rows (quarantine_db w) → quarantine_path r ≠ quarantine_path record)
       ∧ restored_at record = None ∧ deleted_at record = None)
  ∨ (∃ record_id t,
       rows (quarantine_db (after_store_call c w))
       = List.map (λ r, if (id r =? record_id)%Z then set_restored_at t r else r)
                  (rows (quarantine_db w)))
  ∨ (∃ record_id t,
       rows (quarantine_db (after_store_call c w))
       = List.map (λ r, if (id r =? record_id)%Z then set_deleted_at t r else r)
                  (rows (quarantine_db w))).
Proof.
  destruct c as [file_path match_info|record_id|record_id]; simpl.
  - destruct (quarantine_file file_path match_info w) as [o w1] eqn:E.
    apply quarantine_file_outcome in E
      as [(_ & -> & _)|[(f & record & _ & _ & _ & _ & Hu & Hrows & Hid & _ & Hq & Hr & Hd)
                       |(f & _ & _ & Hdb & _)]]; simpl.
    + by left.
    + right; left. exists record. rewrite Hq. eauto.
    + left. by rewrite Hdb.
  - destruct (restore_file record_id w) as [o w1] eqn:E.
    apply restore_file_outcome in E
      as [(_ & ->)|[(record & f & t & _ & _ & _ & _ & _ & Hrows)
                   |(record & e & _ & _ & _ & _ & ->)]]; simpl.
    + by left.
    + right; right; left. eauto.
    + by left.
  - destruct (delete_quarantined_file record_id w) as [o w1] eqn:E.
    apply delete_quarantined_file_outcome in E
      as [(_ & -> & _)|(record & t & _ & _ & _ & Hrows)]; simpl.
    + by left.
    + right; right; right. eauto.
Qed.

Lemma map_id_stamped (g : Row → Row) (p : Row → bool) (l : list Row) :
  (∀ r, row_key (g r) = row_key r) →
  List.map row_key (List.map (λ r, if p r then g r else r) l) = List.map row_key l.
Proof.
  intros Hg. rewrite List.map_map. apply List.map_ext. intros r.
  by destruct (p r).
Qed.

Lemma row_key_ids (l l' : list Row) :
  List.map row_key l = List.map row_key l' →
  List.map id l = List.map id l'
  ∧ List.map quarantine_path l = List.map quarantine_path l'.
Proof.
  intros H.
  assert (Hid : List.map id l = List.map (λ k, k.1.1) (List.map row_key l))
    by (by rewrite List.map_map).
  assert (Hid' : List.map id l' = List.map (λ k, k.1.1) (List.map row_key l'))
    by (by rewrite List.map_map).
  assert (Hq : List.map quarantine_path l = List.map snd (List.map row_key l))
    by (by rewrite List.map_map).
  assert (Hq' : List.map quarantine_path l' = List.map snd (List.map row_key l'))
    by (by rewrite List.map_map).
  by rewrite Hid, Hid', Hq, Hq', H.
Qed.

(** X1. The table keeps its keys: whatever sequence of quarantine,
    restore and delete calls is made, and however each call ends, the ids
    of the rows stay pairwise distinct and so do their storage paths. *)
Theorem store_calls_keep_keys_distinct (cs : list store_call) (w : World) :
  wf_db (quarantine_db w) → wf_db (quarantine_db (after_store_calls cs w)).
Proof.
  revert w. induction cs as [|c cs IH]; intros w Hwf; simpl; [done|].
  apply IH. clear IH. destruct Hwf as [Hids Hpaths]. unfold wf_db.
  destruct (after_store_call_rows c w)
    as [->|[(record & -> & Hid & Hq & _)|[(rid & t & ->)|(rid & t & ->)]]].
  - done.
  - rewrite !map_app. simpl. split.
    + apply NoDup_app. split; [done|]. split; [|apply NoDup_singleton].
      intros x Hx Hx'. apply list_elem_of_In, in_map_iff in Hx as (r & <- & Hr).
      apply list_elem_of_singleton in Hx'.
      apply list_elem_of_In, in_rows_id_below_next_id in Hr. congruence.
    + apply NoDup_app. split; [done|]. split; [|apply NoDup_singleton].
      intros x Hx Hx'. apply list_elem_of_In, in_map_iff in Hx as (r & <- & Hr).
      apply list_elem_of_singleton in Hx'.
      apply list_elem_of_In in Hr. by apply (Hq r).
  - destruct (row_key_ids _ _ (map_id_stamped (set_restored_at t)
                                 (λ r, (id r =? rid)%Z) (rows (quarantine_db w))
                                 (λ r, eq_refl))) as [-> ->].
    done.
  - destruct (row_key_ids _ _ (map_id_stamped (set_deleted_at t)
                                 (λ r, (id r =? rid)%Z) (rows (quarantine_db w))
                                 (λ r, eq_refl))) as [-> ->].
    done.
Qed.


Lemma store_calls_keep_keys_distinct_witness :
  wf_db (quarantine_db Demo.quiet_world)
  ∧ wf_db (quarantine_db
             (after_store_calls
                [CallQuarantine "/data/malicious.bin" [("rule_name", PStr "EVIL")];
                 CallQuarantine "/data/clean.txt" []; CallRestore 1; CallDelete 2]
                Demo.quiet_world)).
Proof.
  assert (H : wf_db (quarantine_db Demo.quiet_world)).
  { split; vm_compute; apply NoDup_nil_2. }
  split; [exact H|].
  by apply (store_calls_keep_keys_distinct _ Demo.quiet_world).
Defined.










(** X5. What a successful restore does to the disk: the stored content
    appears at the original path, which held nothing before, the storage
    path is emptied, and every other path keeps what it had. *)
Theorem restore_moves_only_the_stored_file (record_id : Z) (w w1 : World) :
  restore_file record_id w = (Ok true, w1) →
  ∃ record f,
    record ∈ rows (quarantine_db w) ∧ id record = record_id
    ∧ restored_at record = None
    ∧ disk w !! quarantine_path record = Some f
    ∧ FS.path_exists (disk w) (original_path record) = false
    ∧ disk w1 !! original_path record = Some f
    ∧ disk w1 !! quarantine_path record = None
    ∧ ∀ p, p ≠ original_path record → p ≠ quarantine_path record →
           disk w1 !! p = disk w !! p.
Proof.
  intros H.
  apply restore_file_outcome in H
    as [[? _]|[(record & f & t & Hfind & Hq & Ho & _ & Hdisk & _)
              |(? & ? & _ & _ & _ & ? & _)]]; [done| |done].
  apply List.find_some in Hfind as [Hin Hp].
  apply andb_true_iff in Hp as [Hid Hnull]. apply Z.eqb_eq in Hid.
  exists record, f. split; [by apply list_elem_of_In|]. split; [done|].
  split; [by destruct (restored_at record)|]. split; [done|]. split; [done|].
  assert (Hne : quarantine_path record ≠ original_path record).
  { intros E. rewrite <- E in Ho. unfold FS.path_exists, FS.is_file in Ho.
    rewrite Hq in Ho. by rewrite bool_decide_eq_true_2 in Ho. }
  rewrite Hdisk. split; [by rewrite lookup_insert_eq|].
  split; [rewrite lookup_insert_ne by done; by rewrite lookup_delete_eq|].
  intros p Hp1 Hp2. rewrite lookup_insert_ne by done.
  by rewrite lookup_delete_ne.
Qed.

Lemma restore_moves_only_the_stored_file_witness :
  ∃ w1 record,
    restore_file 1 Sample.quarantined_world = (Ok true, w1)
    ∧ disk w1 !! original_path record = disk Sample.quarantined_world !! quarantine_path record
    ∧ disk w1 !! "/data/clean.txt" = disk Sample.quarantined_world !! "/data/clean.txt".
Proof.
  assert (H : (restore_file 1 Sample.quarantined_world).1 = Ok true)
    by (vm_compute; reflexivity).
  destruct (restore_file 1 Sample.quarantined_world) as [o w1] eqn:E.
  simpl in H. subst o.
  destruct (restore_moves_only_the_stored_file 1 Sample.quarantined_world w1 E)
    as (record & f & Hin & _ & _ & Hq & _ & Ho & _ & Hrest).
  exists w1, record. split; [reflexivity|]. split; [by rewrite Ho, Hq|].
  apply Hrest.
  - intros Heq. unfold FS.path_exists in *.
    vm_compute in Hin. apply list_elem_of_singleton in Hin.
    rewrite Hin in Heq. by vm_compute in Heq.
  - intros Heq.
    vm_compute in Hin. apply list_elem_of_singleton in Hin.
    rewrite Hin in Heq. by vm_compute in Heq.
Defined.

(** X6. Restore never overwrites: when the record that the query of
    [restore_file] selects has an original path at which something exists
    again, a file or a directory, the call returns [False] and neither the
    disk nor the table changes. *)
Theorem restore_never_overwrites (record_id : Z) (w : World) (record : Row) :
  List.find (λ r, (id r =? record_id)%Z && is_null (restored_at r))
            (rows (quarantine_db w)) = Some record →
  FS.path_exists (disk w) (original_path record) = true →
  restore_file record_id w = (Ok false, w).
Proof.
  intros Hfind Hex.
  destruct (restore_file record_id w) as [o w1] eqn:E.
  apply restore_file_outcome in E
    as [[-> ->]|[(record' & f & t & Hfind' & _ & Ho & _)
                |(record' & e & Hfind' & Ho & _)]]; [done|..];
    rewrite Hfind in Hfind'; injection Hfind' as <-; congruence.
Qed.

Lemma restore_never_overwrites_witness :
  restore_file 1 Sample2.reoccupied_world = (Ok false, Sample2.reoccupied_world).
Proof.
  destruct (List.find (λ r, (id r =? 1)%Z && is_null (restored_at r))
              (rows (quarantine_db Sample2.reoccupied_world)))
    as [record|] eqn:Hfind; [|by vm_compute in Hfind].
  apply (restore_never_overwrites 1 Sample2.reoccupied_world record Hfind).
  vm_compute in Hfind. injection Hfind as <-. vm_compute; reflexivity.
Defined.

(** X7. The listing after a successful restore or delete of [record_id]
    is the listing before it without the rows of that id; the other
    entries are the same rows in the same order. *)
Theorem listing_after_restore_or_delete (record_id : Z) (w w1 : World) :
  restore_file record_id w = (Ok true, w1)
  ∨ delete_quarantined_file record_id w = (Ok true, w1) →
  ∃ l, (list_quarantined_files w).1 = Ok l
       ∧ (list_quarantined_files w1).1
         = Ok (List.filter (λ r, negb (id r =? record_id)%Z) l).
Proof.
  intros H. unfold list_quarantined_files, bind, get, ret. simpl.
  eexists. split; [reflexivity|]. f_equal.
  destruct H as [H|H].
  - apply restore_file_outcome in H
      as [[? _]|[(record & f & t & _ & _ & _ & _ & _ & ->)
                |(? & ? & _ & _ & _ & ? & _)]]; [done| |done].
    induction (rows (quarantine_db w)) as [|r l IH]; [done|]. simpl.
    destruct (id r =? record_id)%Z eqn:E; simpl.
    + rewrite IH. destruct (is_null (restored_at r) && is_null (deleted_at r));
        simpl; by rewrite ?E.
    + rewrite IH. destruct (is_null (restored_at r) && is_null (deleted_at r));
        simpl; by rewrite ?E.
  - apply delete_quarantined_file_outcome in H
      as [[? _]|(record & t & _ & _ & _ & ->)]; [done|].
    induction (rows (quarantine_db w)) as [|r l IH]; [done|]. simpl.
    destruct (id r =? record_id)%Z eqn:E; simpl.
    + rewrite IH, andb_false_r.
      destruct (is_null (restored_at r) && is_null (deleted_at r));
        simpl; by rewrite ?E.
    + rewrite IH. destruct (is_null (restored_at r) && is_null (deleted_at r));
        simpl; by rewrite ?E.
Qed.

Lemma listing_after_restore_or_delete_witness :
  List.map id
    match (list_quarantined_files Sample.quarantined_world).1 with
    | Ok l => l | Raise _ => [] end = [1%Z]
  ∧ (list_quarantined_files Sample.restored_world).1 = Ok [].
Proof.
  split; [vm_compute; reflexivity|].
  destruct (listing_after_restore_or_delete 1 Sample.quarantined_world
              Sample.restored_world) as (l & Hl & ->).
  - left. unfold Sample.restored_world.
    assert (H : (restore_file 1 Sample.quarantined_world).1 = Ok true)
      by (vm_compute; reflexivity).
    destruct (restore_file 1 Sample.quarantined_world) as [o w']. simpl in H.
    by rewrite H.
  - vm_compute in Hl. injection Hl as <-. reflexivity.
Defined.

(** X8. [quarantine_file] returns [None] exactly when the path is not a
    regular file, and then nothing has changed: the branch that was meant
    to return [None] after a failed move or insert is never the one that
    produces it. *)
Theorem quarantine_returns_none_only_for_non_files (file_path : string)
    (match_info : dict) (w : World) :
  ((quarantine_file file_path match_info w).1 = Ok None
   ↔ FS.is_file (disk w) file_path = false)
  ∧ (FS.is_file (disk w) file_path = false →
     (quarantine_file file_path match_info w).2 = w).
Proof.
  destruct (quarantine_file file_path match_info w) as [o w1] eqn:E.
  apply quarantine_file_outcome in E. simpl in E. simpl.
  unfold FS.is_file.
  destruct E as [(-> & -> & Hnone)|[(f & record & Hf & -> & _)|(f & Hf & -> & _)]].
  - rewrite Hnone. rewrite bool_decide_eq_false_2 by (by intros [? ?]). done.
  - rewrite Hf. rewrite bool_decide_eq_true_2 by eauto. done.
  - rewrite Hf. rewrite bool_decide_eq_true_2 by eauto. done.
Qed.

Lemma quarantine_returns_none_only_for_non_files_witness :
  (quarantine_file "/data" [] Demo.quiet_world).1 = Ok None
  ∧ (quarantine_file "/data" [] Demo.quiet_world).2 = Demo.quiet_world.
Proof.
  assert (H : FS.is_file (disk Demo.quiet_world) "/data" = false)
    by (vm_compute; reflexivity).
  split.
  - by apply (quarantine_returns_none_only_for_non_files "/data" [] Demo.quiet_world).
  - by apply (quarantine_returns_none_only_for_non_files "/data" [] Demo.quiet_world).
Defined.

(** X9. A storage name that the table already holds: the file is moved
    into the storage directory, the insert is refused, and the handler,
    which names [json.JSONEncodeError], turns that into an
    [AttributeError]. The file is then in storage with no row that could
    restore it. *)
Theorem quarantine_with_a_taken_storage_name (file_path : string)
    (match_info : dict) (w : World) (f : file) (r : Row) :
  let storage_path :=
    joinpath (Config.quarantine_dir (config w))
             (name file_path ++ "_" ++ strftime_YmdHMSf (clock w (ticks w)))%string in
  disk w !! file_path = Some f →
  FS.is_dir (disk w) storage_path = false →
  r ∈ rows (quarantine_db w) →
  quarantine_path r = storage_path →
  ∃ w1,
    quarantine_file file_path match_info w = (Raise AttributeError, w1)
    ∧ disk w1 = <[storage_path := f]> (delete file_path (disk w))
    ∧ quarantine_db w1 = quarantine_db w.
Proof.
  intros storage_path Hf Hdir Hr Hq.
  destruct (quarantine_file file_path match_info w) as [o w1] eqn:E.
  apply quarantine_file_outcome in E. simpl in E.
  fold storage_path in E. rewrite Hdir in E.
  destruct E as [(_ & _ & Hnone)|[(f' & record & _ & _ & _ & _ & Hfresh & _)
                                 |(f' & Hf' & -> & Hdb & [[_ ?]|[Hdisk _]])]].
  - congruence.
  - by destruct (Hfresh r Hr).
  - done.
  - exists w1. rewrite Hf in Hf'. injection Hf' as <-. done.
Qed.

Lemma quarantine_with_a_taken_storage_name_witness :
  ∃ w1,
    quarantine_file "/data/malicious.bin" [] Sample.colliding_world
    = (Raise AttributeError, w1)
    ∧ disk w1 !! "/data/malicious.bin" = None
    ∧ disk w1 !! "/srv/falcondefender/quarantine/malicious.bin_20231114221320000000"
      = Some (File "some binary data with EVIL" 10 true)
    ∧ List.map id (rows (quarantine_db w1)) = [1%Z].
Proof.
  assert (Hname :
    joinpath (Config.quarantine_dir (config Sample.colliding_world))
      (name "/data/malicious.bin" ++ "_"
       ++ strftime_YmdHMSf (clock Sample.colliding_world (ticks Sample.colliding_world)))%string
    = "/srv/falcondefender/quarantine/malicious.bin_20231114221320000000")
    by (vm_compute; reflexivity).
  destruct (quarantine_with_a_taken_storage_name "/data/malicious.bin" []
              Sample.colliding_world (File "some binary data with EVIL" 10 true)
              {| id := 1; original_path := "/data/malicious.bin";
                 quarantine_path :=
                   "/srv/falcondefender/quarantine/malicious.bin_20231114221320000000";
                 file_hash := None;
                 quarantined_at := "2023-11-14T22:13:20.000000";
                 rule_name := PStr "EVIL"; match_details := [];
                 restored_at := Some "2023-11-14T22:13:20.000000";
                 deleted_at := None |})
    as (w1 & Hq & Hdisk & Hdb).
  - vm_compute; reflexivity.
  - vm_compute; reflexivity.
  - apply list_elem_of_here.
  - vm_compute; reflexivity.
  - rewrite Hname in Hdisk. exists w1. split; [exact Hq|].
    rewrite Hdisk, Hdb. split; [|split].
    + rewrite lookup_insert_ne by done. by rewrite lookup_delete_eq.
    + by rewrite lookup_insert_eq.
    + reflexivity.
Defined.

(** ** Scan coordinator: sessions that do not quarantine *)

#[local] Instance only_cache_differs_preorder : PreOrder only_cache_differs.
Proof.
  split.
  - by intros [? ? ? ? [] ? ? ?].
  - intros [? ? ? ? [] ? ? ?] [? ? ? ? [] ? ? ?] [? ? ? ? [] ? ? ?].
    unfold only_cache_differs, set_scanner. simpl. intros H12 H23.
    injection H12 as -> -> -> -> -> -> -> ->.
    injection H23 as -> -> -> -> -> -> -> ->. reflexivity.
Qed.

Lemma for_list_pure {A B} (f : A → M B) (g : A → B) (xs : list A) (w : World) :
  (∀ x, f x w = (Ok (g x), w)) →
  for_list xs f w = (Ok (List.map g xs), w).
Proof.
  intros Hf. induction xs as [|x xs IH]; simpl; [done|].
  unfold bind. rewrite Hf, IH. done.
Qed.

Lemma _scan_file_without_quarantine file_path w :
  _scan_file file_path false w = (Ok (detections w file_path), w).
Proof.
  unfold _scan_file, detections, bind, get.
  destruct (_is_file_scannable _ _ _); simpl; [|done].
  unfold try_except.
  destruct (Scanner.rules (scanner w)) as [rules|]; [|done].
  destruct (disk w !! file_path) as [f|]; [|done].
  unfold bind.
  destruct (rules_match rules (f_content f)) as [ms|e]; simpl; [|by destruct e].
  unfold ret at 1.
  by rewrite (for_list_pure _ (make_match_info file_path)).
Qed.

Lemma remember_scan_time_only_cache file_path :
  keeps only_cache_differs (remember_scan_time file_path).
Proof.
  intros w. unfold remember_scan_time, bind, get, modify, ret.
  destruct (disk w !! file_path); simpl; by destruct w as [? ? ? ? [] ? ? ?].
Qed.

Lemma scan_path_without_quarantine target_path incremental w :
  (scan_path target_path incremental false w).1
  = Ok {| scanned_path := target_path;
          total_files_scanned :=
            length (default [] (files_to_scan w target_path incremental));
          matches :=
            concat (List.map (detections w)
                      (default [] (files_to_scan w target_path incremental))) |}.
Proof.
  unfold scan_path, bind, get.
  destruct (files_to_scan w target_path incremental) as [files|]; simpl; [|done].
  rewrite (for_list_pure _ (detections w))
    by (intros; apply _scan_file_without_quarantine).
  rewrite length_map.
  destruct incremental; simpl; [|done].
  destruct (remember_scan_times_run files w) as (w2 & -> & _). done.
Qed.

(** The frame of a session that does not quarantine. *)
Lemma scan_without_quarantine_frame target_path incremental w :
  only_cache_differs w (scan_path target_path incremental false w).2
  ∧ (scan_path target_path false false w).2 = w.
Proof.
  split.
  - unfold scan_path, bind, get.
    destruct (files_to_scan w target_path incremental) as [files|]; simpl;
      [|reflexivity].
    rewrite (for_list_pure _ (detections w))
      by (intros; apply _scan_file_without_quarantine).
    destruct incremental; simpl; [|reflexivity].
    pose proof (keeps_for_each only_cache_differs files _
                  remember_scan_time_only_cache w) as H.
    by destruct (for_each files remember_scan_time w) as [[[]|e] w2].
  - unfold scan_path, bind, get.
    destruct (files_to_scan w target_path false) as [files|]; simpl; [|done].
    by rewrite (for_list_pure _ (detections w))
      by (intros; apply _scan_file_without_quarantine).
Qed.

(** X10. A session that does not quarantine is read-only outside the
    scanner's cache: disk, table, configuration, rule store, clock and the
    scanner's rules are the same afterwards; when the session is not
    incremental the whole state is unchanged. *)
Theorem scan_without_quarantine_is_read_only (target_path : string)
    (incremental : bool) (w : World) :
  only_cache_differs w (scan_path target_path incremental false w).2
  ∧ (scan_path target_path false false w).2 = w.
Proof. apply scan_without_quarantine_frame. Qed.

(** X11. What such a session reports: it counts every file it
    enumerated, and every match it lists is a detection in one of those
    files that passed the eligibility filter, marked "Detected". *)
Theorem scan_reports_detections_in_eligible_files (target_path : string)
    (incremental : bool) (w : World) :
  ∃ summary,
    (scan_path target_path incremental false w).1 = Ok summary
    ∧ total_files_scanned summary
      = length (default [] (files_to_scan w target_path incremental))
    ∧ ∀ m, m ∈ matches summary →
        ∃ file_path,
          file_path ∈ default [] (files_to_scan w target_path incremental)
          ∧ _is_file_scannable (config w) (disk w) file_path = true
          ∧ dict_get m "file_path" = Some (PStr file_path)
          ∧ dict_get m "action" = Some (PStr "Detected").
Proof.
  rewrite scan_path_without_quarantine. eexists. split; [reflexivity|].
  split; [reflexivity|]. simpl.
  intros m Hm. apply list_elem_of_In, in_concat in Hm as (ms & Hms & Hm).
  apply in_map_iff in Hms as (p & <- & Hp).
  exists p. split; [by apply list_elem_of_In|].
  unfold detections in Hm.
  destruct (_is_file_scannable _ _ _); [|done]. split; [done|].
  destruct (Scanner.rules (scanner w)) as [rules|]; [|done].
  destruct (disk w !! p) as [f|]; [|done].
  destruct (rules_match rules (f_content f)) as [hits|e]; [|done].
  by apply in_map_iff in Hm as (hit & <- & _).
Qed.

(** X12. A scanner that was built without rules (the manager had none)
    still enumerates and counts the files, reports no match whatever the
    files hold, quarantines nothing, and a session that is not incremental
    leaves the state as it was. *)
Theorem scanner_without_rules_finds_nothing (target_path : string)
    (incremental quarantine_matches : bool) (w : World) :
  Scanner.rules (scanner w) = None →
  (scan_path target_path incremental quarantine_matches w).1
  = Ok {| scanned_path := target_path;
          total_files_scanned :=
            length (default [] (files_to_scan w target_path incremental));
          matches := [] |}
  ∧ (scan_path target_path false quarantine_matches w).2 = w
  ∧ disk (scan_path target_path incremental quarantine_matches w).2 = disk w
  ∧ quarantine_db (scan_path target_path incremental quarantine_matches w).2
    = quarantine_db w.
Proof.
  intros Hnone.
  assert (Hfile : ∀ p, _scan_file p quarantine_matches w = (Ok [], w)).
  { intros p. unfold _scan_file, bind, get.
    destruct (negb _); [done|]. unfold try_except. by rewrite Hnone. }
  assert (Hconcat : ∀ files : list string,
    concat (List.map (λ _, @nil dict) files) = []).
  { induction files; simpl; done. }
  assert (Hrun : ∀ incremental,
    (scan_path target_path incremental quarantine_matches w).1
    = Ok {| scanned_path := target_path;
            total_files_scanned :=
              length (default [] (files_to_scan w target_path incremental));
            matches := [] |}
    ∧ only_cache_differs w (scan_path target_path incremental quarantine_matches w).2
    ∧ (incremental = false →
       (scan_path target_path incremental quarantine_matches w).2 = w)).
  { intros inc. unfold scan_path, bind, get.
    destruct (files_to_scan w target_path inc) as [files|]; simpl;
      [|by split; [|split; [reflexivity|]]].
    rewrite (for_list_pure _ (λ _, [])) by apply Hfile.
    rewrite length_map, Hconcat.
    destruct inc; simpl; [|by split; [|split; [reflexivity|]]].
    pose proof (keeps_for_each only_cache_differs files _
                  remember_scan_time_only_cache w) as Hk.
    destruct (remember_scan_times_run files w) as (w2 & Hloop & _).
    rewrite Hloop in Hk |- *. by simpl in *. }
  destruct (Hrun incremental) as (H1 & H2 & _).
  destruct (Hrun false) as (_ & _ & H3).
  split; [exact H1|]. split; [by apply H3|].
  split; [exact (f_equal disk H2) | exact (f_equal quarantine_db H2)].
Qed.

Lemma scanner_without_rules_finds_nothing_witness :
  (scan_path "/data" false true
     (Demo.world Demo.libraries Demo.cfg Demo.data_disk)).1
  = Ok {| scanned_path := "/data"; total_files_scanned := 3; matches := [] |}.
Proof.
  destruct (scanner_without_rules_finds_nothing "/data" false true
              (Demo.world Demo.libraries Demo.cfg Demo.data_disk) eq_refl)
    as (-> & _).
  vm_compute; reflexivity.
Defined.

(** ** Scan coordinator: the eligibility filter and repeated sessions *)

Lemma prefix_app (p rest : string) : String.prefix p (p ++ rest) = true.
Proof.
  induction p as [|a p IH]; simpl; [by destruct rest|].
  by destruct (Ascii.ascii_dec a a).
Qed.

(** X13. The system locations are recognised by the text of the path, not
    by its components: every path whose text starts with [/proc], [/sys]
    or [/dev] is rejected, whatever follows and whatever the configuration
    allows. *)
Theorem system_paths_are_matched_as_text (cfg : Config.t)
    (fs : gmap string file) (location rest : string) :
  location ∈ system_paths →
  _is_file_scannable cfg fs (location ++ rest) = false.
Proof.
  intros Hin. unfold _is_file_scannable.
  destruct (fs !! (location ++ rest)%string) as [f|]; [|done].
  destruct (negb (f_readable f)); [done|].
  destruct (negb (Qle_bool _ _)); [done|].
  destruct (_ && _); [done|]. destruct (_ && _); [done|].
  destruct (_ || _); [done|].
  assert (H : existsb (λ p, startswith (location ++ rest) p) system_paths = true).
  { apply existsb_exists. exists location. split; [by apply list_elem_of_In|].
    apply prefix_app. }
  by rewrite H.
Qed.

Lemma system_paths_are_matched_as_text_witness :
  _is_file_scannable default_config
    {[ "/developer/notes.txt" := File "notes" 1 true ]} "/developer/notes.txt"
  = false.
Proof.
  apply (system_paths_are_matched_as_text default_config _ "/dev" "eloper/notes.txt").
  unfold system_paths. apply list_elem_of_further, list_elem_of_further,
    list_elem_of_here.
Defined.

Lemma size_test (size m : Z) :
  Qle_bool (inject_Z size / inject_Z (1024 * 1024)) (inject_Z m)
  = (size <=? m * 1048576)%Z.
Proof.
  apply eq_true_iff_eq. rewrite Qle_bool_iff, Z.leb_le.
  unfold Qle, Qdiv, Qmult, Qinv, inject_Z. simpl. lia.
Qed.

(** X14. The size ceiling is inclusive and counts bytes: with a whole
    number [m] of megabytes configured, a path that is accepted with one
    content is accepted with another content exactly when that content has
    at most [m * 1048576] bytes. *)
Theorem size_ceiling_is_inclusive (cfg : Config.t) (fs : gmap string file)
    (file_path : string) (m : Z) (content content' : string) (mtime mtime' : Z) :
  Config.max_file_size_mb cfg = inject_Z m →
  _is_file_scannable cfg (<[file_path := File content mtime true]> fs) file_path
  = true →
  _is_file_scannable cfg (<[file_path := File content' mtime' true]> fs) file_path
  = (Z.of_nat (String.length content') <=? m * 1048576)%Z.
Proof.
  unfold _is_file_scannable. rewrite !lookup_insert_eq. simpl.
  intros ->. unfold FS.st_size. simpl. rewrite !size_test.
  destruct (Z.of_nat (String.length content) <=? m * 1048576)%Z; simpl; [|done].
  destruct (Z.of_nat (String.length content') <=? m * 1048576)%Z; simpl; [|done].
  done.
Qed.

Lemma size_ceiling_is_inclusive_witness :
  _is_file_scannable Demo.cfg
    {[ "/data/big.bin" := File "12345678" 3 true ]} "/data/big.bin" = true.
Proof.
  change ({[ "/data/big.bin" := File "12345678" 3 true ]} : gmap string file)
    with (<["/data/big.bin" := File "12345678" 3 true]> (∅ : gmap string file)).
  rewrite (size_ceiling_is_inclusive Demo.cfg ∅ "/data/big.bin" 1 "" "12345678" 0 3).
  - reflexivity.
  - reflexivity.
  - vm_compute; reflexivity.
Defined.

Lemma elem_of_walk_insert p q l :
  q ∈ FS.walk_insert p l ↔ q = p ∨ q ∈ l.
Proof.
  induction l as [|x l IH]; simpl.
  - rewrite list_elem_of_singleton, elem_of_nil. tauto.
  - destruct (FS.walk_leb _ _); rewrite ?elem_of_cons, ?IH; tauto.
Qed.

Lemma elem_of_walk_order p l : p ∈ FS.walk_order l ↔ p ∈ l.
Proof.
  induction l as [|x l IH]; simpl; [done|].
  rewrite elem_of_walk_insert, elem_of_cons, IH. tauto.
Qed.

Lemma files_below_on_disk fs dir p :
  p ∈ FS.files_below fs dir ↔ is_Some (fs !! p) ∧ FS.below dir p = true.
Proof.
  unfold FS.files_below. rewrite elem_of_walk_order, list_elem_of_filter.
  split.
  - intros [Hb Hp]. split; [|done].
    apply list_elem_of_fmap in Hp as ([k v] & -> & Hkv).
    apply elem_of_map_to_list in Hkv. simpl. eauto.
  - intros [[f Hf] Hb]. split; [done|].
    apply list_elem_of_fmap. exists (p, f). split; [done|].
    by apply elem_of_map_to_list.
Qed.

Lemma List_filter_nil {A} (P : A → bool) (l : list A) :
  (∀ x, x ∈ l → P x = false) → List.filter P l = [].
Proof.
  induction l as [|x l IH]; intros H; simpl; [done|].
  rewrite (H x) by apply list_elem_of_here.
  apply IH. intros y Hy. apply H. by apply list_elem_of_further.
Qed.

(** X15. After an incremental session over a directory, without
    quarantine, an incremental session that follows at once skips every
    regular file below the directory: none of them is among the files it
    considers, and it reports no match, also for the files in which the
    first session found something. *)
Theorem incremental_rescan_skips_every_regular_file (target_path : string)
    (w : World) :
  FS.is_dir (disk w) target_path = true →
  let w' := (scan_path target_path true false w).2 in
  (∀ file_path f,
     disk w' !! file_path = Some f →
     FS.below target_path file_path = true →
     file_path ∉ default [] (files_to_scan w' target_path true))
  ∧ ∃ summary,
      (scan_path target_path true false w').1 = Ok summary
      ∧ matches summary = [].
Proof.
  intros Hdir w'.
  destruct (scan_path_run w target_path true false)
    as (summary & w1 & Hrun & _ & _ & Hcache).
  destruct (scan_without_quarantine_frame target_path true w) as [Hframe _].
  assert (Hw' : w' = w1) by (unfold w'; by rewrite Hrun).
  fold w' in Hframe. rewrite Hw' in *. clear Hw' w'.
  assert (Hdisk : disk w1 = disk w) by exact (f_equal disk Hframe).
  assert (Hfile : FS.is_file (disk w) target_path = false).
  { unfold FS.is_dir in Hdir. by destruct (FS.is_file (disk w) target_path). }
  assert (Hskip : ∀ p f, disk w !! p = Some f → FS.below target_path p = true →
            unchanged_since_last_scan (scanner w1) (disk w) p = true).
  { intros p f Hf Hbelow. specialize (Hcache p).
    rewrite Hdisk, Hf in Hcache.
    unfold unchanged_since_last_scan at 1. rewrite Hcache, Hf.
    destruct (bool_decide _) eqn:Hb; simpl.
    - apply Z.leb_le. lia.
    - apply bool_decide_eq_false in Hb. unfold files_to_scan in Hb.
      rewrite Hfile, Hdir in Hb. simpl in Hb.
      rewrite elem_of_List_filter in Hb.
      destruct (unchanged_since_last_scan (scanner w) (disk w) p) eqn:Hu.
      + unfold unchanged_since_last_scan in Hu. rewrite Hf in Hu.
        destruct (Scanner.last_scan_times (scanner w) !! p); [|done].
        by rewrite Hu.
      + destruct Hb. split; [|done].
        apply files_below_on_disk. eauto. }
  assert (Hfiles : files_to_scan w1 target_path true = Some []).
  { unfold files_to_scan. rewrite Hdisk, Hfile, Hdir. simpl. f_equal.
    apply List_filter_nil. intros p Hp.
    apply files_below_on_disk in Hp as [[f Hf] Hbelow].
    by rewrite (Hskip p f Hf Hbelow). }
  split.
  - intros p f Hf Hbelow. rewrite Hfiles. apply not_elem_of_nil.
  - rewrite scan_path_without_quarantine, Hfiles. eexists. split; reflexivity.
Qed.

Lemma incremental_rescan_skips_every_regular_file_witness :
  List.length
    match (scan_path "/data" true false Sample3.hunting_world).1 with
    | Ok summary => matches summary | Raise _ => [] end = 2
  ∧ ∃ summary,
      (scan_path "/data" true false
         (scan_path "/data" true false Sample3.hunting_world).2).1 = Ok summary
      ∧ matches summary = [].
Proof.
  split; [vm_compute; reflexivity|].
  apply (incremental_rescan_skips_every_regular_file "/data" Sample3.hunting_world).
  vm_compute; reflexivity.
Defined.

(** ** Scan coordinator: quarantine of a file with several hits *)




(** ** Rule store: what a load leaves behind *)

#[local] Instance no_file_appears_preorder : PreOrder no_file_appears.
Proof.
  split.
  - by intros w.
  - intros w1 w2 w3 [H12 D12] [H23 D23]. split; [congruence|].
    intros q Hq. by apply D23, D12.
Qed.

#[local] Instance same_manager_preorder : PreOrder same_manager.
Proof.
  split; [by intros w|intros w1 w2 w3 H12 H23; unfold same_manager in *; congruence].
Qed.

Lemma hasher_update_all_read_only hasher files :
  keeps eq (hasher_update_all hasher files).
Proof.
  revert hasher. induction files as [|file_path rest IH]; intros hasher; simpl.
  - apply (keeps_ret eq).
  - unfold read_file. repeat keeps_step; apply IH.
Qed.

Lemma _calculate_rules_checksum_read_only : keeps eq _calculate_rules_checksum.
Proof.
  unfold _calculate_rules_checksum, rglob.
  repeat keeps_step; apply hasher_update_all_read_only.
Qed.

Lemma yara_compile_filepaths_read_only filepaths :
  keeps eq (yara_compile_filepaths filepaths).
Proof. unfold yara_compile_filepaths, read_file. repeat keeps_step. Qed.

Lemma yara_load_path_read_only path : keeps eq (yara_load_path path).
Proof. unfold yara_load_path, read_file. repeat keeps_step. Qed.

Lemma read_file_read_only path : keeps eq (read_file path).
Proof. unfold read_file. repeat keeps_step. Qed.

(** A run of a computation that leaves the world alone. *)
Lemma read_only_run {A} (c : M A) w o w' :
  keeps eq c → c w = (o, w') → w' = w.
Proof. intros H E. specialize (H w). rewrite E in H. done. Qed.

Lemma set_disk_same w : set_disk (disk w) w = w.
Proof. by destruct w. Qed.

Lemma unlink_if_exists_run path w o w' :
  unlink_if_exists path w = (o, w') →
  (o = Ok tt ∧ w' = set_disk (delete path (disk w)) w)
  ∨ (o = Raise FileNotFoundError ∧ w' = w ∧ disk w !! path = None).
Proof.
  unfold unlink_if_exists, os_remove, bind, get, modify, ret, raise.
  destruct (FS.path_exists (disk w) path) eqn:Hex.
  - destruct (disk w !! path) eqn:Hf; intros [= <- <-]; [by left|by right].
  - apply path_exists_false in Hex as [Hnone _]. intros [= <- <-]. left.
    split; [done|]. by rewrite delete_id, set_disk_same.
Qed.

Lemma unlink_if_exists_no_file_appears path :
  keeps no_file_appears (unlink_if_exists path).
Proof.
  intros w. destruct (unlink_if_exists path w) as [o w'] eqn:E.
  apply unlink_if_exists_run in E as [[_ ->]|(_ & -> & _)]; [|reflexivity].
  split; [done|]. intros q Hq. simpl.
  destruct (decide (q = path)) as [->|Hne];
    [by rewrite lookup_delete_eq | by rewrite lookup_delete_ne].
Qed.

Lemma unlink_if_exists_absent path w o w' :
  disk w !! path = None → unlink_if_exists path w = (o, w') → w' = w.
Proof.
  intros Hnone [[_ ->]|(_ & -> & _)]%unlink_if_exists_run; [|done].
  by rewrite delete_id, set_disk_same.
Qed.

Lemma unlink_if_exists_ok path w w' :
  unlink_if_exists path w = (Ok tt, w') →
  disk w' !! path = None ∧ no_file_appears w w'.
Proof.
  intros E. split.
  - apply unlink_if_exists_run in E as [[_ ->]|(? & _)]; [|done].
    simpl. by rewrite lookup_delete_eq.
  - pose proof (unlink_if_exists_no_file_appears path w) as H.
    by rewrite E in H.
Qed.

Lemma _compile_rules_run w o w' :
  _compile_rules w = (o, w') →
  no_file_appears w w'
  ∧ (disk w !! YaraManager.compiled_rules_path (yara_manager w) = None →
     disk w !! YaraManager.checksum_path (yara_manager w) = None →
     w' = w).
Proof.
  unfold _compile_rules, rglob. intros H.
  apply bind_inv in H as [(w0 & w1 & [= <- <-] & H)|(e & [=] & _)].
  apply bind_inv in H as [(yar_files & w1 & H1 & H)|(e & H1 & _)];
    [|by apply bind_inv in H1 as [(? & ? & [= <- <-] & [=])|(? & [=] & _)]].
  apply bind_inv in H1 as [(? & ? & [= <- <-] & [= <- <-])|(? & [=] & _)].
  apply bind_inv in H as [(yara_files & w1 & H1 & H)|(e & H1 & _)];
    [|by apply bind_inv in H1 as [(? & ? & [= <- <-] & [=])|(? & [=] & _)]].
  apply bind_inv in H1 as [(? & ? & [= <- <-] & [= <- <-])|(? & [=] & _)].
  destruct (sorted _) as [|p ps]; [by injection H as <- <-|].
  set (filepaths := fold_left _ _ _) in H. clearbody filepaths.
  assert (Hbody : ∀ o1 w1,
    (compiled <- yara_compile_filepaths filepaths ;;
     match rule_identifiers compiled with
     | [] =>
         unlink_if_exists (YaraManager.compiled_rules_path (yara_manager w)) ;;;
         unlink_if_exists (YaraManager.checksum_path (yara_manager w)) ;;;
         ret None
     | _ => ret (Some compiled)
     end) w = (o1, w1) →
    no_file_appears w w1
    ∧ (disk w !! YaraManager.compiled_rules_path (yara_manager w) = None →
       disk w !! YaraManager.checksum_path (yara_manager w) = None →
       w1 = w)).
  { intros o1 w1 Hb.
    apply bind_inv in Hb as [(compiled & w2 & Hc & Hb)|(e & Hc & _)].
    - apply (read_only_run _ _ _ _ (yara_compile_filepaths_read_only _)) in Hc.
      subst w2.
      destruct (rule_identifiers compiled); [|by injection Hb as <- <-].
      apply bind_inv in Hb as [([] & w2 & Hu1 & Hb)|(e & Hu1 & _)].
      + apply bind_inv in Hb as [([] & w3 & Hu2 & [= <- <-])|(e & Hu2 & _)].
        * pose proof (unlink_if_exists_no_file_appears
                        (YaraManager.compiled_rules_path (yara_manager w)) w) as K1.
          pose proof (unlink_if_exists_no_file_appears
                        (YaraManager.checksum_path (yara_manager w)) w2) as K2.
          rewrite Hu1 in K1. rewrite Hu2 in K2. simpl in *.
          split; [by etrans|]. intros Hc Hs.
          apply (unlink_if_exists_absent _ _ _ _ Hc) in Hu1. subst w2.
          by apply (unlink_if_exists_absent _ _ _ _ Hs) in Hu2.
        * pose proof (unlink_if_exists_no_file_appears
                        (YaraManager.compiled_rules_path (yara_manager w)) w) as K1.
          pose proof (unlink_if_exists_no_file_appears
                        (YaraManager.checksum_path (yara_manager w)) w2) as K2.
          rewrite Hu1 in K1. rewrite Hu2 in K2. simpl in *.
          split; [by etrans|]. intros Hc Hs.
          apply (unlink_if_exists_absent _ _ _ _ Hc) in Hu1. subst w2.
          by apply (unlink_if_exists_absent _ _ _ _ Hs) in Hu2.
      + pose proof (unlink_if_exists_no_file_appears
                        (YaraManager.compiled_rules_path (yara_manager w)) w) as K1.
        rewrite Hu1 in K1. simpl in *. split; [done|]. intros Hc _.
        by apply (unlink_if_exists_absent _ _ _ _ Hc) in Hu1.
    - apply (read_only_run _ _ _ _ (yara_compile_filepaths_read_only _)) in Hc.
      by subst w1. }
  apply try_except_inv in H
    as [(a & H & _)|(e & w1 & H & [[_ [= <- <-]]|(_ & _ & ->)])];
    by apply Hbody in H.
Qed.

Lemma _save_compiled_rules_run rules checksum w :
  ∃ w', _save_compiled_rules rules checksum w = (Ok tt, w')
        ∧ yara_manager w' = yara_manager w.
Proof.
  unfold _save_compiled_rules, write_file, datetime_now, try_except, bind, get,
    modify, ret. simpl. eauto.
Qed.

(** X17. Rules and checksum are set together.  Whenever [load_rules]
    returns, the manager either holds no rules and no checksum, and then
    neither the compiled file nor its checksum file is left on disk, or it
    holds rules together with the checksum that was computed from the
    sources at the start of the call. *)
Theorem load_rules_sets_rules_and_checksum_together (force_recompile : bool)
    (w w1 : World) :
  load_rules force_recompile w = (Ok tt, w1) →
  let self := yara_manager w in
  let self1 := yara_manager w1 in
  YaraManager.rules_dir self1 = YaraManager.rules_dir self
  ∧ ((YaraManager._rules self1 = None
      ∧ YaraManager._rules_checksum self1 = None
      ∧ disk w1 !! YaraManager.compiled_rules_path self = None
      ∧ disk w1 !! YaraManager.checksum_path self = None)
     ∨ (∃ rules checksum,
          YaraManager._rules self1 = Some rules
          ∧ YaraManager._rules_checksum self1 = Some checksum
          ∧ (_calculate_rules_checksum w).1 = Ok checksum)).
Proof.
  unfold load_rules. intros H. simpl.
  apply bind_ok in H as (w0 & ? & [= <- <-] & H).
  apply bind_ok in H as ([] & wm & Hmk & H).
  destruct (mkdir_parents_run (YaraManager.rules_dir (yara_manager w)) w)
    as [[Hmk' _]|(e & Hmk' & _)]; rewrite Hmk' in Hmk; [|done].
  injection Hmk as <-.
  apply bind_ok in H as (current & w2 & Hsum & H).
  pose proof (read_only_run _ _ _ _ _calculate_rules_checksum_read_only Hsum).
  subst w2. rewrite Hsum. simpl.
  apply bind_ok in H as (loaded & w2 & Hload & H).
  assert (Hloaded :
    (loaded = true
     ∧ ∃ r, w2 = set_yara_manager
                   {| YaraManager.rules_dir := YaraManager.rules_dir (yara_manager w);
                      YaraManager._rules := Some r;
                      YaraManager._rules_checksum := Some current |} w)
    ∨ (loaded = false ∧ w2 = w)).
  { destruct (_ && _); [|right; by injection Hload as <- <-].
    apply bind_ok in Hload as (stored & w3 & Hread & Hload).
    apply (read_only_run _ _ _ _ (read_file_read_only _)) in Hread. subst w3.
    destruct (String.eqb stored current); [|right; by injection Hload as <- <-].
    apply try_except_inv in Hload
      as [(a & Hload & [= <-])|(e & w3 & Hload & [[_ [= <- <-]]|(_ & [=] & _)])].
    - apply bind_ok in Hload as (r & w3 & Hl & Hload).
      apply (read_only_run _ _ _ _ (yara_load_path_read_only _)) in Hl. subst w3.
      apply bind_ok in Hload as ([] & w3 & Hset & [= <- <-]).
      unfold set_rules, bind, get, modify in Hset. injection Hset as <-.
      left. eauto.
    - apply bind_inv in Hload as [(r & w4 & Hl & Hload)|(e' & Hl & _)].
      + apply (read_only_run _ _ _ _ (yara_load_path_read_only _)) in Hl. subst w4.
        apply bind_inv in Hload as [([] & w4 & Hset & [=])|(e' & Hset & _)].
        unfold set_rules, bind, get, modify in Hset. done.
      + apply (read_only_run _ _ _ _ (yara_load_path_read_only _)) in Hl.
        right. by subst w3. }
  destruct Hloaded as [(-> & r & ->)|(-> & ->)].
  - injection H as <-. simpl. split; [done|]. right. eauto.
  - apply bind_ok in H as (compiled & w3 & Hcompile & H).
    apply _compile_rules_run in Hcompile as [[Hym Hdisk] _].
    destruct compiled as [r|].
    + apply bind_ok in H as ([] & w4 & Hset & H).
      unfold set_rules, bind, get, modify in Hset. injection Hset as <-.
      destruct (_save_compiled_rules_run r current
                  (set_yara_manager
                     {| YaraManager.rules_dir := YaraManager.rules_dir (yara_manager w3);
                        YaraManager._rules := Some r;
                        YaraManager._rules_checksum := Some current |} w3))
        as (w5 & Hsave & Hym5).
      rewrite Hsave in H. injection H as <-. rewrite Hym5. simpl.
      rewrite Hym. split; [done|]. right. eauto.
    + apply bind_ok in H as ([] & w4 & Hset & H).
      unfold set_rules, bind, get, modify in Hset. injection Hset as <-.
      apply bind_ok in H as ([] & w5 & Hu1 & Hu2).
      apply unlink_if_exists_ok in Hu1 as [Hc [Hym5 _]].
      apply unlink_if_exists_ok in Hu2 as [Hs [Hym1 Hd1]].
      rewrite Hym1, Hym5. simpl. rewrite Hym. split; [done|]. left.
      split; [done|]. split; [done|]. split; [by apply Hd1|done].
Qed.

Lemma load_rules_sets_rules_and_checksum_together_witness :
  (load_rules false Sample3.office_world).1 = Ok tt
  ∧ YaraManager._rules_checksum
      (yara_manager (load_rules false Sample3.office_world).2)
    = Some "md5:EVIL".
Proof.
  set (w := Sample3.office_world).
  assert (H : (load_rules false w).1 = Ok tt) by (vm_compute; reflexivity).
  split; [exact H|].
  destruct (load_rules false w) as [o w1] eqn:E. simpl in H. subst o.
  destruct (load_rules_sets_rules_and_checksum_together false w w1 E)
    as (_ & [(_ & _ & _ & Hs)|(rules & checksum & _ & Hc & Hsum)]).
  - exfalso. revert Hs.
    assert (Hw1 : w1 = (load_rules false w).2) by (by rewrite E).
    rewrite Hw1. vm_compute. discriminate.
  - simpl. rewrite Hc. f_equal. vm_compute in Hsum. by injection Hsum as <-.
Defined.

(** X18. A manager without rules reports an update on every check.  The
    checksum it holds is [None], which no computed checksum equals, so
    [check_for_updates_and_reload] reloads and returns [True] each time;
    and as long as the reload again ends without rules, with no cache file
    on disk, the call leaves the whole state as it found it. *)
Theorem manager_without_rules_always_reports_an_update (w w1 : World) (b : bool) :
  YaraManager._rules (yara_manager w) = None →
  YaraManager._rules_checksum (yara_manager w) = None →
  disk w !! YaraManager.compiled_rules_path (yara_manager w) = None →
  disk w !! YaraManager.checksum_path (yara_manager w) = None →
  check_for_updates_and_reload w = (Ok b, w1) →
  b = true ∧ (YaraManager._rules (yara_manager w1) = None → w1 = w).
Proof.
  intros Hrules Hsum Hc Hs H. unfold check_for_updates_and_reload in H.
  apply bind_ok in H as (new & w2 & Hnew & H).
  apply (read_only_run _ _ _ _ _calculate_rules_checksum_read_only) in Hnew.
  subst w2.
  apply bind_ok in H as (? & ? & [= <- <-] & H).
  rewrite Hsum, bool_decide_eq_true_2 in H by done.
  apply bind_ok in H as ([] & w2 & Hload & [= <- <-]). split; [done|].
  intros Hnone. unfold load_rules in Hload.
  apply bind_ok in Hload as (w0 & ? & [= <- <-] & H).
  apply bind_ok in H as ([] & wm & Hmk & H).
  destruct (mkdir_parents_run (YaraManager.rules_dir (yara_manager w)) w)
    as [[Hmk' _]|(e & Hmk' & _)]; rewrite Hmk' in Hmk; [|done].
  injection Hmk as <-.
  apply bind_ok in H as (current & w6 & Hcur & H).
  apply (read_only_run _ _ _ _ _calculate_rules_checksum_read_only) in Hcur.
  subst w6. simpl in H.
  apply bind_ok in H as (loaded & w7 & [= <- <-] & H).
  apply bind_ok in H as (compiled & w3 & Hcompile & H).
  apply _compile_rules_run in Hcompile as [_ Hsame].
  specialize (Hsame Hc Hs). subst w3.
  assert (Hset : ∀ r c,
    set_rules r c w
    = (Ok tt, set_yara_manager
                {| YaraManager.rules_dir := YaraManager.rules_dir (yara_manager w);
                   YaraManager._rules := r;
                   YaraManager._rules_checksum := c |} w)) by done.
  destruct compiled as [r|].
  - apply bind_ok in H as ([] & w4 & Hset' & H).
    rewrite Hset in Hset'. injection Hset' as <-.
    destruct (_save_compiled_rules_run r current
                (set_yara_manager
                   {| YaraManager.rules_dir := YaraManager.rules_dir (yara_manager w);
                      YaraManager._rules := Some r;
                      YaraManager._rules_checksum := Some current |} w))
      as (w5 & Hsave & Hym5).
    rewrite Hsave in H. injection H as <-. by rewrite Hym5 in Hnone.
  - apply bind_ok in H as ([] & w4 & Hset' & H).
    rewrite Hset in Hset'. injection Hset' as <-.
    assert (Hw : set_yara_manager
                   {| YaraManager.rules_dir := YaraManager.rules_dir (yara_manager w);
                      YaraManager._rules := None;
                      YaraManager._rules_checksum := None |} w = w).
    { destruct w as [? ? ? [] ? ? ? ?]. simpl in *. by subst. }
    rewrite Hw in H.
    apply bind_ok in H as ([] & w5 & Hu1 & Hu2).
    apply (unlink_if_exists_absent _ _ _ _ Hc) in Hu1. subst w5.
    by apply (unlink_if_exists_absent _ _ _ _ Hs) in Hu2.
Qed.

Lemma manager_without_rules_always_reports_an_update_witness :
  (check_for_updates_and_reload Sample3.ruleless_world).1 = Ok true
  ∧ (check_for_updates_and_reload Sample3.ruleless_world).2
    = Sample3.ruleless_world.
Proof.
  assert (H : (check_for_updates_and_reload Sample3.ruleless_world).1 = Ok true)
    by (vm_compute; reflexivity).
  split; [exact H|].
  destruct (check_for_updates_and_reload Sample3.ruleless_world) as [o w1] eqn:E.
  simpl in H. subst o.
  destruct (manager_without_rules_always_reports_an_update
              Sample3.ruleless_world w1 true) as [_ Hsame].
  - vm_compute; reflexivity.
  - vm_compute; reflexivity.
  - vm_compute; reflexivity.
  - vm_compute; reflexivity.
  - exact E.
  - apply Hsame. assert (Hw1 : w1 = (check_for_updates_and_reload
                                         Sample3.ruleless_world).2)
      by (by rewrite E).
    rewrite Hw1. vm_compute; reflexivity.
Defined.

(** ** Scan state machine: sequences of calls *)

(** X19. No call leads out of the error state.  Once the adapter is in
    [ERROR] (or [UPDATING]), [pause], [resume] and [cancel] do nothing and
    every [start_scan] is refused: after any sequence of calls the state,
    the flags and the task are the same, and the queue has grown by one
    "Cannot start scan" error per [start_scan]. *)
Theorem no_call_leaves_the_error_state (cs : list adapter_call)
    (self : ScannerAdapter.t) :
  ScannerAdapter.state self = ScannerAdapter.ERROR
  ∨ ScannerAdapter.state self = ScannerAdapter.UPDATING →
  let self' := after_adapter_calls cs self in
  ScannerAdapter.state self' = ScannerAdapter.state self
  ∧ ScannerAdapter.pause_event self' = ScannerAdapter.pause_event self
  ∧ ScannerAdapter.cancel_event self' = ScannerAdapter.cancel_event self
  ∧ ScannerAdapter.scan_task self' = ScannerAdapter.scan_task self
  ∧ ScannerAdapter.event_queue self'
    = ScannerAdapter.event_queue self
      ++ List.map (λ _, {| ScannerAdapter.kind := "error";
                           ScannerAdapter.msg :=
                             "Cannot start scan: scanner is "
                             ++ ScannerAdapter.value (ScannerAdapter.state self) |})
                  (List.filter is_start_scan cs).
Proof.
  revert self. induction cs as [|c cs IH]; intros self Hstate; simpl.
  - by rewrite app_nil_r.
  - assert (Hstep :
      ScannerAdapter.state (after_adapter_call c self) = ScannerAdapter.state self
      ∧ ScannerAdapter.pause_event (after_adapter_call c self)
        = ScannerAdapter.pause_event self
      ∧ ScannerAdapter.cancel_event (after_adapter_call c self)
        = ScannerAdapter.cancel_event self
      ∧ ScannerAdapter.scan_task (after_adapter_call c self)
        = ScannerAdapter.scan_task self
      ∧ ScannerAdapter.event_queue (after_adapter_call c self)
        = ScannerAdapter.event_queue self
          ++ (if is_start_scan c
              then [ {| ScannerAdapter.kind := "error";
                        ScannerAdapter.msg :=
                          "Cannot start scan: scanner is "
                          ++ ScannerAdapter.value (ScannerAdapter.state self) |} ]
              else [])).
    { destruct c; simpl;
        unfold ScannerAdapter.start_scan, ScannerAdapter.pause,
          ScannerAdapter.resume, ScannerAdapter.cancel;
        destruct Hstate as [E|E]; rewrite ?E; simpl; by rewrite ?E, ?app_nil_r. }
    destruct Hstep as (Hs & Hp & Hc & Ht & Hq).
    destruct (IH (after_adapter_call c self)) as (Hs' & Hp' & Hc' & Ht' & Hq').
    { by rewrite Hs. }
    unfold after_adapter_calls in *. simpl in *.
    rewrite Hs', Hp', Hc', Ht', Hq', Hs, Hp, Hc, Ht, Hq.
    repeat split; try done.
    rewrite <- app_assoc. by destruct (is_start_scan c).
Qed.

Lemma no_call_leaves_the_error_state_witness :
  ScannerAdapter.state
    (after_adapter_calls [CallCancel; CallStartScan "/data" false false; CallResume]
       Sample4.failed_adapter)
  = ScannerAdapter.ERROR.
Proof.
  apply (no_call_leaves_the_error_state
           [CallCancel; CallStartScan "/data" false false; CallResume]
           Sample4.failed_adapter).
  by left.
Defined.

Lemma calls_do_not_enter_error_or_updating c self :
  ScannerAdapter.state (after_adapter_call c self) = ScannerAdapter.ERROR
  ∨ ScannerAdapter.state (after_adapter_call c self) = ScannerAdapter.UPDATING →
  ScannerAdapter.state (after_adapter_call c self) = ScannerAdapter.state self.
Proof.
  destruct c; simpl;
    unfold ScannerAdapter.start_scan, ScannerAdapter.pause,
      ScannerAdapter.resume, ScannerAdapter.cancel;
    destruct (ScannerAdapter.state self) eqn:E; simpl; rewrite ?E;
    by intros [|].
Qed.

(** X20. The flags follow the state.  If the flags of the adapter agree
    with its state, they do so after any sequence of calls: while it is
    scanning or paused it holds a task that was not cancelled, the cancel
    flag is clear, and the pause flag is set exactly when it is paused.
    And the calls never put the adapter into [ERROR] or [UPDATING]: if it
    is there afterwards, it was there from the start. *)
Theorem flags_follow_the_state (cs : list adapter_call) (self : ScannerAdapter.t) :
  flags_agree_with_state self →
  let self' := after_adapter_calls cs self in
  flags_agree_with_state self'
  ∧ (ScannerAdapter.state self' = ScannerAdapter.ERROR
     ∨ ScannerAdapter.state self' = ScannerAdapter.UPDATING →
     ScannerAdapter.state self' = ScannerAdapter.state self).
Proof.
  revert self. induction cs as [|c cs IH]; intros self H; simpl; [done|].
  assert (Hstep : flags_agree_with_state (after_adapter_call c self)).
  { unfold flags_agree_with_state, has_live_task in *.
    destruct c; simpl;
      unfold ScannerAdapter.start_scan, ScannerAdapter.pause,
        ScannerAdapter.resume, ScannerAdapter.cancel;
      destruct (ScannerAdapter.state self) eqn:E; simpl; rewrite ?E; simpl;
      try done;
      try (destruct H as (? & ? & ?); by repeat split);
      repeat split; eauto. }
  destruct (IH _ Hstep) as [Hflags Hstate]. split; [exact Hflags|].
  intros Hbad. specialize (Hstate Hbad).
  unfold after_adapter_calls in *. simpl in *.
  rewrite Hstate in Hbad |- *. by apply calls_do_not_enter_error_or_updating.
Qed.

Lemma flags_follow_the_state_witness :
  flags_agree_with_state
    (after_adapter_calls
       [CallStartScan "/data" true false; CallPause; CallCancel;
        CallStartScan "/data" false false; CallPause]
       Demo.idle_adapter).
Proof.
  apply (flags_follow_the_state _ Demo.idle_adapter). exact I.
Defined.

(** X21. Severity of what the scanner reports.  A match that the scanner
    built from a rule without [confidence] metadata carries the text "N/A"
    there, and the adapter rates it "medium", also after the quarantine
    step has rewritten its [action]. *)
Theorem match_without_confidence_is_rated_medium (file_path : string)
    (m : YaraMatch) (action : string) :
  dict_get (meta m) "confidence" = None →
  _get_severity (make_match_info file_path m) = "medium"
  ∧ _get_severity (dict_set (make_match_info file_path m) "action" (PStr action))
    = "medium".
Proof.
  intros H. unfold _get_severity, make_match_info. simpl. rewrite H. simpl.
  by vm_compute.
Qed.

Lemma match_without_confidence_is_rated_medium_witness :
  _get_severity
    (make_match_info "/data/malicious.bin"
       {| rule := "EVIL"; namespace := "default"; tags := []; meta := [];
          strings := ["EVIL"] |})
  = "medium".
Proof.
  apply (match_without_confidence_is_rated_medium "/data/malicious.bin"
           {| rule := "EVIL"; namespace := "default"; tags := []; meta := [];
              strings := ["EVIL"] |} "").
  reflexivity.
Defined.

(** ** Configuration: [set] and [get] *)

Lemma dict_get_set_eq {V} (d : list (string * V)) k v :
  dict_get (dict_set d k v) k = Some v.
Proof.
  induction d as [|[k' v'] d IH]; simpl.
  - by rewrite String.eqb_refl.
  - destruct (String.eqb k' k) eqn:E; simpl; [by rewrite String.eqb_refl|].
    by rewrite E.
Qed.

Lemma dict_get_set_ne {V} (d : list (string * V)) k k' v :
  k ≠ k' → dict_get (dict_set d k v) k' = dict_get d k'.
Proof.
  intros Hne. induction d as [|[k0 v0] d IH]; simpl.
  - destruct (String.eqb k k') eqn:E; [|done]. by apply String.eqb_eq in E.
  - destruct (String.eqb k0 k) eqn:E; simpl.
    + apply String.eqb_eq in E. subst k0.
      destruct (String.eqb k k') eqn:E'; [|done]. by apply String.eqb_eq in E'.
    + by rewrite IH.
Qed.

Lemma split_without_separator sep s :
  rfind sep s = None → split sep s = [s].
Proof.
  induction s as [|a s IH]; simpl; [done|].
  destruct (rfind sep s); [done|].
  destruct (Ascii.eqb a sep); [done|]. intros _. by rewrite IH.
Qed.

Lemma split_at_separator sep k rest :
  rfind sep k = None →
  split sep (k ++ String sep rest) = k :: split sep rest.
Proof.
  induction k as [|a k IH]; simpl.
  - by rewrite Ascii.eqb_refl.
  - destruct (rfind sep k); [done|].
    destruct (Ascii.eqb a sep); [done|]. intros _. by rewrite IH.
Qed.

Lemma append_longer (k rest : string) (a : ascii) : k ≠ (k ++ String a rest)%string.
Proof.
  induction k as [|b k IH]; simpl; [done|]. intros [= H]. by apply IH.
Qed.

(** X22. A key without a dot is set and read back: [get] after [set]
    returns the value, whatever was stored before, and every other key
    reads as it did. *)
Theorem set_then_get_plain_key (_config : dict) (key other : string)
    (value default : pyval) :
  rfind "." key = None →
  ConfigManager.get (ConfigManager.set _config key value) key default = value
  ∧ (other ≠ key →
     ConfigManager.get (ConfigManager.set _config key value) other default
     = ConfigManager.get _config other default).
Proof.
  intros Hplain. unfold ConfigManager.get, ConfigManager.set.
  rewrite split_without_separator by done. simpl.
  rewrite dict_get_set_eq. split; [done|].
  intros Hne. by rewrite dict_get_set_ne.
Qed.

Lemma set_then_get_plain_key_witness :
  ConfigManager.get (ConfigManager.set sample_config "max_file_size_mb" (PInt 5))
    "max_file_size_mb" PNone = PInt 5.
Proof.
  apply (set_then_get_plain_key sample_config "max_file_size_mb" "" (PInt 5) PNone).
  reflexivity.
Defined.

(** X23. A dotted key is set but not read back.  [set] on
    [section.option] stores the value in the dictionary under [section]
    (creating it, or replacing what is not a dictionary), while [get] looks
    the whole text [section.option] up at the top level: it returns what it
    returned before the [set], not the value. *)
Theorem dotted_key_is_set_in_the_section_only (_config : dict)
    (section option : string) (value default : pyval) :
  rfind "." section = None →
  rfind "." option = None →
  let key := (section ++ "." ++ option)%string in
  let _config' := ConfigManager.set _config key value in
  ConfigManager.get _config' key default = ConfigManager.get _config key default
  ∧ ∃ d, dict_get _config' section = Some (PDict d)
         ∧ dict_get d option = Some value
         ∧ ∀ other, other ≠ option →
             dict_get d other
             = match dict_get _config section with
               | Some (PDict d0) => dict_get d0 other
               | _ => None
               end.
Proof.
  intros Hs Ho.
  change (section ++ "." ++ option)%string
    with (section ++ String "."%char option)%string.
  cbv zeta. unfold ConfigManager.get, ConfigManager.set.
  rewrite (split_at_separator "." section option Hs).
  rewrite (split_without_separator "." option Ho). simpl.
  rewrite dict_get_set_ne by apply append_longer.
  split; [done|]. eexists. split; [apply dict_get_set_eq|].
  split; [apply dict_get_set_eq|].
  intros other Hne. rewrite dict_get_set_ne by done.
  by destruct (dict_get _config section) as [[]|].
Qed.

Lemma dotted_key_is_set_in_the_section_only_witness :
  ConfigManager.get
    (ConfigManager.set sample_config "email_reporting.enabled" (PBool true))
    "email_reporting.enabled" PNone = PNone
  ∧ dict_get (ConfigManager.set sample_config "email_reporting.enabled" (PBool true))
      "email_reporting"
    = Some (PDict [ ("enabled", PBool true); ("smtp_port", PInt 587) ]).
Proof.
  destruct (dotted_key_is_set_in_the_section_only sample_config
              "email_reporting" "enabled" (PBool true) PNone)
    as [Hget _]; [reflexivity..|].
  split; [exact Hget|vm_compute; reflexivity].
Defined.
